(** * CACTUS_rp: the research-paper summarisation pipeline of
    [Cactus-Communication.ipynb]

    A shallow embedding of the notebook's own functions, [clean_text],
    [split_into_sections] and [HybridSummarizer], followed by the properties
    its specification states about them.

    Conventions.
    - A Python [str] is a sequence of Unicode code points: [str := list N].
      The literals of the notebook are written [py "..."].
    - A Python [dict] is an association list in insertion order: iteration
      order is what [split_into_sections] and [summarize_sections] rely on.
    - A call that can raise returns a [result]; an exception that nothing
      catches is threaded to the caller by [bind].
    - The libraries the notebook calls (the Punkt sentence tokenizer, the
      spaCy sentence splitter, scikit-learn's TF-IDF vectorizer, the BART
      model, the Unicode digit table) are section variables. *)

From Stdlib Require Import String Ascii Bool Arith NArith ZArith QArith Lia List.
From Stdlib Require Import Permutation Sorted.
Import ListNotations.

Close Scope Q_scope.
Local Open Scope nat_scope.
Local Open Scope list_scope.

(* ================================================================== *)
(** ** Python strings *)
(* ================================================================== *)

Definition str := list N.

(** The code points of an ASCII literal. *)
Fixpoint py (s : string) : str :=
  match s with
  | EmptyString => []
  | String a s' => N_of_ascii a :: py s'
  end.

Fixpoint str_eqb (a b : str) : bool :=
  match a, b with
  | [], [] => true
  | x :: a', y :: b' => N.eqb x y && str_eqb a' b'
  | _, _ => false
  end.

Definition in_range (lo hi c : N) : bool := (N.leb lo c && N.leb c hi)%bool.

Definition is_ascii_upper (c : N) : bool := in_range 65 90 c.
Definition is_ascii_lower (c : N) : bool := in_range 97 122 c.
Definition is_ascii_digit (c : N) : bool := in_range 48 57 c.

(** [str.isspace] on one code point, which is also what [\s] matches in a
    [str] pattern and what [str.strip()] removes: the ASCII controls
    U+0009..U+000D and U+001C..U+001F, the space, and the Unicode
    separators. *)
Definition is_space (c : N) : bool :=
  (in_range 9 13 c || in_range 28 32 c
   || N.eqb c 133 || N.eqb c 160 || N.eqb c 5760
   || in_range 8192 8202 c || N.eqb c 8232 || N.eqb c 8233
   || N.eqb c 8239 || N.eqb c 8287 || N.eqb c 12288)%bool.

Fixpoint lstrip (s : str) : str :=
  match s with
  | c :: s' => if is_space c then lstrip s' else s
  | [] => []
  end.

Definition rstrip (s : str) : str := rev (lstrip (rev s)).

(** [s.strip()] *)
Definition strip (s : str) : str := rstrip (lstrip s).

(** [s.lower()].  On the alphabet [clean_text] leaves (ASCII letters, digits,
    punctuation, whitespace), which is all [split_into_sections] is applied
    to, lower-casing moves A..Z to a..z and nothing else.  Code points outside
    ASCII are left as they are here; their Unicode lower-case forms contain no
    ASCII letter that could complete a keyword of [section_headers]. *)
Definition lower_char (c : N) : N := if is_ascii_upper c then (c + 32)%N else c.
Definition lower (s : str) : str := map lower_char s.

Fixpoint startswith (p s : str) : bool :=
  match p, s with
  | [], _ => true
  | x :: p', y :: s' => N.eqb x y && startswith p' s'
  | _ :: _, [] => false
  end.

(** [keyword in s]: substring test. *)
Fixpoint contains (keyword s : str) : bool :=
  startswith keyword s ||
  match s with
  | [] => false
  | _ :: s' => contains keyword s'
  end.

(** [sep.join(parts)] *)
Fixpoint join (sep : str) (parts : list str) : str :=
  match parts with
  | [] => []
  | [p] => p
  | p :: rest => p ++ sep ++ join sep rest
  end.

Definition space : str := py " ".

(* ================================================================== *)
(** ** Exceptions and dictionaries *)
(* ================================================================== *)

Inductive exn : Type :=
| KeyError (key : str)
| IndexError
| ValueError (msg : str)
| OtherError (msg : str).

Inductive result (A : Type) : Type :=
| Ok (a : A)
| Raise (e : exn).

Arguments Ok {A} a.
Arguments Raise {A} e.

Definition bind {A B} (r : result A) (k : A -> result B) : result B :=
  match r with
  | Ok a => k a
  | Raise e => Raise e
  end.

Notation "x <- r ;; k" := (bind r (fun x => k))
  (at level 61, r at next level, right associativity).

Fixpoint mapM {A B} (f : A -> result B) (l : list A) : result (list B) :=
  match l with
  | [] => Ok []
  | a :: l' => b <- f a ;; bs <- mapM f l' ;; Ok (b :: bs)
  end.

Section Dict.
Variable V : Type.

Definition dict := list (str * V).

Definition keys (d : dict) : list str := map fst d.

(** [d.get(k)]; [None] when the key is absent. *)
Fixpoint dict_get (d : dict) (k : str) : option V :=
  match d with
  | [] => None
  | (k', v) :: d' => if str_eqb k' k then Some v else dict_get d' k
  end.

(** [d[k]]; a missing key raises. *)
Definition dict_item (d : dict) (k : str) : result V :=
  match dict_get d k with
  | Some v => Ok v
  | None => Raise (KeyError k)
  end.

(** [d[k] = v]: an existing key keeps its position, a new key goes last. *)
Fixpoint dict_set (d : dict) (k : str) (v : V) : dict :=
  match d with
  | [] => [(k, v)]
  | (k', v') :: d' =>
      if str_eqb k' k then (k', v) :: d' else (k', v') :: dict_set d' k v
  end.
End Dict.

Arguments dict_get {V} d k.
Arguments dict_item {V} d k.
Arguments dict_set {V} d k v.
Arguments keys {V} d.

(* ================================================================== *)
(** ** [split_into_sections] *)
(* ================================================================== *)

(** The dict literal [section_headers], in the order it is written. *)
Definition section_headers : dict (list str) :=
  [ (py "Title",        [py "title"]);
    (py "Abstract",     [py "abstract"]);
    (py "Introduction", [py "introduction"]);
    (py "Methods",      [py "methods"; py "methodology"; py "materials & methods"]);
    (py "Results",      [py "results"; py "findings"]);
    (py "Discussion",   [py "discussion"; py "analysis"]);
    (py "Conclusion",   [py "conclusion"; py "summary"; py "final thoughts"]) ].

(** [any(keyword in sentence.lower() for keyword in keywords)] *)
Definition any_keyword (keywords : list str) (sentence : str) : bool :=
  existsb (fun keyword => contains keyword (lower sentence)) keywords.

(** The inner [for section, keywords in section_headers.items()] loop with its
    [break]: the cursor after the sentence has been inspected. *)
Fixpoint detect_section (headers : dict (list str)) (sentence : str)
    (current_section : str) : str :=
  match headers with
  | [] => current_section
  | (section, keywords) :: rest =>
      if any_keyword keywords sentence then section
      else detect_section rest sentence current_section
  end.

(** The two variables the outer loop updates. *)
Record seg_state : Type := SegState {
  current_section : str;
  sections : dict str
}.

(** One iteration of [for sentence in sentences]: move the cursor, then
    [sections[current_section] += sentence + " "]. *)
Definition segment_step (st : seg_state) (sentence : str) : result seg_state :=
  let cursor := detect_section section_headers sentence (current_section st) in
  old <- dict_item (sections st) cursor ;;
  Ok (SegState cursor (dict_set (sections st) cursor (old ++ sentence ++ space))).

Fixpoint segment_loop (sentences : list str) (st : seg_state) : result seg_state :=
  match sentences with
  | [] => Ok st
  | sentence :: rest => st' <- segment_step st sentence ;; segment_loop rest st'
  end.

(** Every key of [section_headers] bound to the empty string, and the cursor
    on Title. *)
Definition initial_state : seg_state :=
  SegState (py "Title") (map (fun entry => (fst entry, @nil N)) section_headers).

Section Segmenter.
(** [nltk.tokenize.sent_tokenize] *)
Variable sent_tokenize : str -> list str.

Definition split_into_sections (text : str) : result (dict str) :=
  st <- segment_loop (sent_tokenize text) initial_state ;;
  Ok (sections st).

(** The cursor once the first [n] sentences of [text] have been processed. *)
Definition cursor_after (n : nat) (text : str) : result str :=
  st <- segment_loop (firstn n (sent_tokenize text)) initial_state ;;
  Ok (current_section st).
End Segmenter.

(** The declared section order: the keys of [section_headers]. *)
Definition section_order : list str := keys section_headers.

(** The value of the cursor after each sentence, in order. *)
Fixpoint cursor_trace (sentences : list str) (cursor : str) : list str :=
  match sentences with
  | [] => []
  | sentence :: rest =>
      let cursor := detect_section section_headers sentence cursor in
      cursor :: cursor_trace rest cursor
  end.

(** The sentences the cursor sends to [section], in their original order. *)
Fixpoint bucket (section : str) (sentences : list str) (cursor : str) : list str :=
  match sentences with
  | [] => []
  | sentence :: rest =>
      let cursor := detect_section section_headers sentence cursor in
      if str_eqb cursor section then sentence :: bucket section rest cursor
      else bucket section rest cursor
  end.

(** The accumulated text of a list of sentences: each one followed by a space. *)
Definition accumulate (sentences : list str) : str :=
  flat_map (fun sentence => sentence ++ space) sentences.

(** A rule-based sentence splitter used to run the segmenter on concrete
    texts: a sentence ends at [.], [!] or [?] followed by whitespace or by the
    end of the text, and the whitespace between sentences is dropped. *)
Definition is_terminator (c : N) : bool :=
  (N.eqb c 46 || N.eqb c 33 || N.eqb c 63)%bool.

Definition at_boundary (s : str) : bool :=
  match s with
  | [] => true
  | d :: _ => is_space d
  end.

Fixpoint split_sentences (acc : str) (s : str) : list str :=
  match s with
  | [] => match acc with [] => [] | _ => [rev acc] end
  | c :: s' =>
      if (is_space c && match acc with [] => true | _ => false end)%bool
      then split_sentences [] s'
      else if (is_terminator c && at_boundary s')%bool
      then rev (c :: acc) :: split_sentences [] s'
      else split_sentences (c :: acc) s'
  end.

Definition simple_sent_tokenize (text : str) : list str := split_sentences [] text.


(* ================================================================== *)
(** ** Regular expressions, as far as the notebook's patterns go *)
(* ================================================================== *)

(** Every quantifier of the notebook's patterns applies to a single character
    class, and alternation only occurs at top level; so a pattern is an ordered
    list of branches and a branch a list of quantified classes. *)
Inductive quantifier : Type :=
| Exactly (n : nat)     (* [c], [c{n}] *)
| Greedy (min : nat)    (* [c*], [c+], [c{n,}] *)
| Lazy (min : nat).     (* [c*?] *)

Record atom : Type := Atom {
  atom_class : N -> bool;
  atom_quantifier : quantifier
}.

Definition branch := list atom.
Definition regex := list branch.

(** The matchers return the number of characters consumed by the first
    successful match in backtracking order; [k] matches the rest of the
    branch. *)
Fixpoint match_exactly (n : nat) (cls : N -> bool) (k : str -> option nat)
    (s : str) : option nat :=
  match n with
  | O => k s
  | S n' =>
      match s with
      | c :: s' => if cls c then option_map S (match_exactly n' cls k s') else None
      | [] => None
      end
  end.

Fixpoint match_greedy (cls : N -> bool) (k : str -> option nat) (s : str) : option nat :=
  match s with
  | c :: s' =>
      if cls c then
        match match_greedy cls k s' with
        | Some n => Some (S n)
        | None => k s
        end
      else k s
  | [] => k s
  end.

Fixpoint match_lazy (cls : N -> bool) (k : str -> option nat) (s : str) : option nat :=
  match k s with
  | Some n => Some n
  | None =>
      match s with
      | c :: s' => if cls c then option_map S (match_lazy cls k s') else None
      | [] => None
      end
  end.

Fixpoint match_branch (b : branch) (s : str) : option nat :=
  match b with
  | [] => Some 0
  | Atom cls q :: b' =>
      match q with
      | Exactly n => match_exactly n cls (match_branch b') s
      | Greedy m => match_exactly m cls (match_greedy cls (match_branch b')) s
      | Lazy m => match_exactly m cls (match_lazy cls (match_branch b')) s
      end
  end.

Fixpoint match_regex (r : regex) (s : str) : option nat :=
  match r with
  | [] => None
  | b :: r' =>
      match match_branch b s with
      | Some n => Some n
      | None => match_regex r' s
      end
  end.

(** [re.sub(r, '', s)]: scan left to right; where the pattern matches, drop the
    match and resume after it; elsewhere keep the character.  [skip] counts the
    characters of the current match still to drop.  (With the empty
    replacement an empty match changes nothing; none of the notebook's
    patterns has one.) *)
Fixpoint sub_from (r : regex) (skip : nat) (s : str) : str :=
  match s with
  | [] => []
  | c :: s' =>
      match skip with
      | S skip' => sub_from r skip' s'
      | O =>
          match match_regex r s with
          | Some (S n) => sub_from r n s'
          | _ => c :: sub_from r 0 s'
          end
      end
  end.

Definition re_sub (r : regex) (s : str) : str := sub_from r 0 s.

(** Character classes. *)
Definition chr (c : N) : N -> bool := N.eqb c.

(** A literal under [re.IGNORECASE]: equal after lower-casing, plus the
    code points outside ASCII that the engine identifies with an ASCII letter:
    dotted capital I and dotless i with [i], long s with [s], the Kelvin
    sign with [k]. *)
Definition chr_i (c : N) (x : N) : bool :=
  (N.eqb (lower_char x) (lower_char c)
   || (N.eqb (lower_char c) 105 && (N.eqb x 304 || N.eqb x 305))
   || (N.eqb (lower_char c) 115 && N.eqb x 383)
   || (N.eqb (lower_char c) 107 && N.eqb x 8490))%bool.

(** [.]: anything but a newline. *)
Definition any_char (x : N) : bool := negb (N.eqb x 10).

Definition one (cls : N -> bool) : atom := Atom cls (Exactly 1).
Definition star (cls : N -> bool) : atom := Atom cls (Greedy 0).
Definition plus (cls : N -> bool) : atom := Atom cls (Greedy 1).
Definition lazy_star (cls : N -> bool) : atom := Atom cls (Lazy 0).

Definition lit (s : string) : branch := map (fun c => one (chr c)) (py s).
Definition lit_i (s : string) : branch := map (fun c => one (chr_i c)) (py s).

(* ================================================================== *)
(** ** [clean_text] *)
(* ================================================================== *)

(** The characters the last substitution keeps: [a-zA-Z0-9.,!?;:()\s]. *)
Definition is_basic_punctuation (c : N) : bool :=
  existsb (N.eqb c) (py ".,!?;:()").

Definition kept_char (c : N) : bool :=
  (is_ascii_lower c || is_ascii_upper c || is_ascii_digit c
   || is_basic_punctuation c || is_space c)%bool.

Section Cleaner.
(** The decimal digits of Unicode outside ASCII, which [\d] also matches in
    a [str] pattern. *)
Variable unicode_decimal : N -> bool.

Definition digit (c : N) : bool := (is_ascii_digit c || unicode_decimal c)%bool.

(** [eISSN:\s*\d+|pISSN:\s*\d+|Impact Factor.*?\d+\.\d+], IGNORECASE *)
Definition journal_metadata : regex :=
  [ lit_i "eISSN:" ++ [star is_space; plus digit];
    lit_i "pISSN:" ++ [star is_space; plus digit];
    lit_i "Impact Factor" ++ [lazy_star any_char; plus digit; one (chr 46); plus digit] ].

(** [Volume:\s*\d+\s*Issue:\s*\d+], IGNORECASE *)
Definition volume_issue : regex :=
  [ lit_i "Volume:" ++ [star is_space; plus digit; star is_space]
    ++ lit_i "Issue:" ++ [star is_space; plus digit] ].

(** [ISO\s*\d{4,}], IGNORECASE *)
Definition iso_number : regex :=
  [ lit_i "ISO" ++ [star is_space; Atom digit (Greedy 4)] ].

(** [\[\d+\]] *)
Definition bracket_citation : regex :=
  [ lit "[" ++ [plus digit] ++ lit "]" ].

(** [\(.*?\d{4}.*?\)] *)
Definition year_citation : regex :=
  [ lit "(" ++ [lazy_star any_char; Atom digit (Exactly 4); lazy_star any_char] ++ lit ")" ].

(** [[^a-zA-Z0-9.,!?;:()\s]] *)
Definition special_character : regex :=
  [ [one (fun c => negb (kept_char c))] ].

Definition clean_text (text : str) : str :=
  let text := re_sub journal_metadata text in
  let text := re_sub volume_issue text in
  let text := re_sub iso_number text in
  let text := re_sub bracket_citation text in
  let text := re_sub year_citation text in
  let text := re_sub special_character text in
  strip text.
End Cleaner.

(* ================================================================== *)
(** ** [HybridSummarizer] *)
(* ================================================================== *)

(** [sorted]: a stable sort.  [precedes y x] says that [y] must come strictly
    before [x]; elements neither of which precedes the other keep their
    input order. *)
Section Sorted.
Variable A : Type.
Variable precedes : A -> A -> bool.

Fixpoint insert_sorted (x : A) (l : list A) : list A :=
  match l with
  | [] => [x]
  | y :: l' => if precedes y x then y :: insert_sorted x l' else x :: l
  end.

Definition sorted (l : list A) : list A := fold_right insert_sorted [] l.

(** [a] may stand before [b] in the output of [sorted]. *)
Definition may_precede (a b : A) : Prop := precedes b a = false.
End Sorted.

Arguments insert_sorted {A} precedes x l.
Arguments sorted {A} precedes l.
Arguments may_precede {A} precedes a b.

(** [l[i]] *)
Definition list_item {A} (l : list A) (i : nat) : result A :=
  match nth_error l i with
  | Some a => Ok a
  | None => Raise IndexError
  end.

Definition Qlt_bool (a b : Q) : bool := negb (Qle_bool b a).

(** [sentence_scores[i, 0]] *)
Definition score (sentence_scores : list Q) (i : nat) : Q := nth i sentence_scores 0%Q.

(** With [reverse=True] the index of the higher score comes first; indices of
    equal score keep their order. *)
Definition outranks (sentence_scores : list Q) (j i : nat) : bool :=
  Qlt_bool (score sentence_scores i) (score sentence_scores j).

(** [sorted(range(len(sentence_scores)), key=lambda i: sentence_scores[i, 0],
    reverse=True)] *)
Definition ranked (sentence_scores : list Q) : list nat :=
  sorted (outranks sentence_scores) (seq 0 (length sentence_scores)).

(** Where the slice [l[:k]] of a list of length [n] stops: a negative [k]
    counts from the end, and the index is clipped to the list. *)
Definition slice_stop (k : Z) (n : nat) : nat :=
  if (k <? 0)%Z then n - Z.to_nat (- k) else Nat.min (Z.to_nat k) n.

(** [l[:k]] *)
Definition slice_to {A} (k : Z) (l : list A) : list A :=
  firstn (slice_stop k (length l)) l.

(** The two summarisation methods, as the values of the strategy table. *)
Inductive strategy : Type :=
| extractive
| abstractive.

Section Summarizer.
(** [[sent.text for sent in self.nlp(text).sents]] *)
Variable nlp_sents : str -> list str.
(** [TfidfVectorizer(stop_words='english').fit_transform(sentences).sum(axis=1)]:
    one total score per sentence, or the vectorizer's exception.  A finite
    float is a rational, whence [Q]. *)
Variable tfidf_row_sums : list str -> result (list Q).
(** [self.tokenizer(text, max_length=.., truncation=True)['input_ids']] *)
Variable bart_encode : nat -> str -> result (list N).
(** [self.abstractive_model.generate(ids, num_beams, max_length, min_length,
    early_stopping=True)] *)
Variable bart_generate : list N -> nat -> nat -> nat -> result (list (list N)).
(** [self.tokenizer.decode(ids, skip_special_tokens=True)] *)
Variable bart_decode : list N -> result str.

Definition extractive_summary (text : str) (max_sentences : Z) : result str :=
  let sentences := nlp_sents text in
  sentence_scores <- tfidf_row_sums sentences ;;
  let top_sentence_indices := slice_to max_sentences (ranked sentence_scores) in
  picked <- mapM (list_item sentences) (sorted Nat.ltb top_sentence_indices) ;;
  Ok (join space picked).

Definition abstractive_summary (text : str) (max_length min_length : nat) : result str :=
  inputs <- bart_encode 1024 text ;;
  summary_ids <- bart_generate inputs 4 max_length min_length ;;
  first <- list_item summary_ids 0 ;;
  bart_decode first.

(** [self.summarization_strategy] *)
Definition summarization_strategy : dict strategy :=
  [ (py "Methods", extractive);
    (py "Results", extractive);
    (py "Introduction", abstractive);
    (py "Discussion", abstractive);
    (py "Conclusion", abstractive) ].

(** [self.summarization_strategy.get(section, self.extractive_summary)] *)
Definition strategy_for (section : str) : strategy :=
  match dict_get summarization_strategy section with
  | Some summarizer => summarizer
  | None => extractive
  end.

(** [summarizer(content)], with the default arguments of either method. *)
Definition run_strategy (summarizer : strategy) (content : str) : result str :=
  match summarizer with
  | extractive => extractive_summary content 3
  | abstractive => abstractive_summary content 150 50
  end.

(** The body of [for section, content in sections.items()]. *)
Fixpoint summarize_loop (items : dict str) (summaries : dict str) : result (dict str) :=
  match items with
  | [] => Ok summaries
  | (section, content) :: rest =>
      match strip content with
      | [] => summarize_loop rest summaries
      | _ :: _ =>
          summary <- run_strategy (strategy_for section) content ;;
          summarize_loop rest (dict_set summaries section summary)
      end
  end.

Definition summarize_sections (sections : dict str) : result (dict str) :=
  summarize_loop sections [].
End Summarizer.

(* ================================================================== *)
(** ** A small concrete library, to run the summarizer on examples *)
(* ================================================================== *)

(** Words as the vectorizer's default token pattern sees them: runs of two or
    more ASCII letters or digits, lower-cased. *)
Definition is_word_char (c : N) : bool :=
  (is_ascii_lower c || is_ascii_upper c || is_ascii_digit c)%bool.

Fixpoint words_from (acc : str) (s : str) : list str :=
  match s with
  | [] => [rev acc]
  | c :: s' =>
      if is_word_char c then words_from (lower_char c :: acc) s'
      else rev acc :: words_from [] s'
  end.

Definition stop_words : list str :=
  map py ["it"; "is"; "the"; "we"; "was"; "and"; "of"; "in"; "to"; "are"; "be"; "this"]%string.

Definition content_words (sentence : str) : list str :=
  filter (fun w => (Nat.leb 2 (length w) && negb (existsb (str_eqb w) stop_words))%bool)
    (words_from [] sentence).

(** A stand-in for the vectorizer: a sentence scores the number of its words
    outside the stop list, and a corpus with no such word at all is refused as
    scikit-learn refuses an empty vocabulary. *)
Definition count_row_sums (sentences : list str) : result (list Q) :=
  match flat_map content_words sentences with
  | [] => Raise (ValueError (py "empty vocabulary; perhaps the documents only contain stop words"))
  | _ :: _ => Ok (map (fun s => inject_Z (Z.of_nat (length (content_words s)))) sentences)
  end.

(** A stand-in for the sequence model: character-level ids, generation that
    returns the truncated input. *)
Definition echo_encode (max_length : nat) (text : str) : result (list N) :=
  Ok (firstn max_length text).
Definition echo_generate (ids : list N) (num_beams max_length min_length : nat)
  : result (list (list N)) := Ok [firstn max_length ids].
Definition echo_decode (ids : list N) : result str := Ok ids.

Definition demo_summarize_sections : dict str -> result (dict str) :=
  summarize_sections simple_sent_tokenize count_row_sums
    echo_encode echo_generate echo_decode.

Definition demo_extractive_summary : str -> Z -> result str :=
  extractive_summary simple_sent_tokenize count_row_sums.

(* ================================================================== *)
(** ** Vocabulary of the statements *)
(* ================================================================== *)

(** [l1] is [l2] with some elements left out, the others in the same order. *)
Inductive subsequence {A : Type} : list A -> list A -> Prop :=
| subsequence_nil : subsequence [] []
| subsequence_skip x l1 l2 : subsequence l1 l2 -> subsequence l1 (x :: l2)
| subsequence_keep x l1 l2 : subsequence l1 l2 -> subsequence (x :: l1) (x :: l2).

Definition ends_with (suffix s : str) : Prop := exists front, s = front ++ suffix.

(** All values of a section map, one after the other in the declared order. *)
Definition concatenated_sections (d : dict str) : str :=
  flat_map (fun section =>
              match dict_get d section with
              | Some content => content
              | None => []
              end) section_order.

(** The dict after [sections[cursor] += x]. *)
Definition append_at (cursor x : str) (d : dict str) : dict str :=
  map (fun kv => (fst kv, if str_eqb cursor (fst kv) then snd kv ++ x else snd kv)) d.

(** No keyword of any section occurs in the lower-cased sentence. *)
Definition no_keyword (sentence : str) : Prop :=
  forall entry, In entry section_headers -> any_keyword (snd entry) sentence = false.

Definition crossing_text : str := py "Results improved. Abstract follows.".

Definition three_keyword_sentence : str :=
  py "Our methods, results and discussion agree.".

Definition plain_text : str := py "We ran it twice. It worked.".

Definition two_sentence_text : str := py "Sensors fail. Ridge patterns identify fingerprints.".

Definition tied_text : str :=
  py "Ridge patterns vary. Sensors fail often. Noise blurs images. Deep networks win.".

Definition digit_free_text : str := py "  Ridge patterns (see above) are ~unique~!  ".

Definition stop_word_sections : dict str :=
  [ (py "Methods", py "It is. ");
    (py "Results", py "Accuracy improved. ") ].

Definition mixed_sections : dict str :=
  [ (py "Title", py "A paper title. ");
    (py "Abstract", py "  ");
    (py "Methods", py "It is good. ");
    (py "Results", py "Accuracy improved. ") ].

Definition six_sentence_text : str :=
  py "It is. Ridge patterns identify fingerprints. We are. Sensors fail. Noise blurs images badly. Deep networks classify fingerprint images accurately.".

Definition example_text : str :=
  py "This paper presents Methods. We used X. Results show Y improved. In Discussion, Z holds. Methods section reviewed again.".

Definition example_sentences : list str :=
  [ py "This paper presents Methods.";
    py "We used X.";
    py "Results show Y improved.";
    py "In Discussion, Z holds.";
    py "Methods section reviewed again." ].

(* ================================================================== *)
(** ** [extract_text_from_pdf] and [process_research_paper] *)
(* ================================================================== *)

(** [re.sub(r, repl, s)]: as [sub_from], with [repl] written where a match
    starts.  (An empty match would make Python insert [repl] without consuming
    anything; the one pattern used with a replacement, a run of whitespace, has
    no empty match.) *)
Fixpoint sub_with (r : regex) (repl : str) (skip : nat) (s : str) : str :=
  match s with
  | [] => []
  | c :: s' =>
      match skip with
      | S skip' => sub_with r repl skip' s'
      | O =>
          match match_regex r s with
          | Some (S n) => repl ++ sub_with r repl n s'
          | _ => c :: sub_with r repl 0 s'
          end
      end
  end.

Definition re_sub_with (r : regex) (repl s : str) : str := sub_with r repl 0 s.

Definition newline : str := [10%N].

(** The least number of characters an atom consumes. *)
Definition min_count (q : quantifier) : nat :=
  match q with
  | Exactly n => n
  | Greedy m => m
  | Lazy m => m
  end.

(** The atom consumes at least one character of class [cls]. *)
Definition needs (cls : N -> bool) (a : atom) : Prop :=
  atom_class a = cls /\ 1 <= min_count (atom_quantifier a).

(** [\s+] *)
Definition whitespace_run : regex := [ [plus is_space] ].

(** [References|Bibliography], IGNORECASE *)
Definition references_heading : regex :=
  [ lit_i "References"; lit_i "Bibliography" ].

(** The length of the run of whitespace [s] starts with. *)
Fixpoint leading_spaces (s : str) : nat :=
  match s with
  | c :: s' => if is_space c then S (leading_spaces s') else 0
  | [] => 0
  end.

(** One left-to-right pass that writes a single space for every maximal run
    of whitespace; [in_run] tells that the run's space has been written. *)
Fixpoint collapse (in_run : bool) (s : str) : str :=
  match s with
  | [] => []
  | c :: s' =>
      if is_space c then
        if in_run then collapse true s' else 32%N :: collapse true s'
      else c :: collapse false s'
  end.

(** Index [a] ranks before index [b]: it scores more, or the same and it
    comes first. *)
Definition ranks_before (sentence_scores : list Q) (a b : nat) : Prop :=
  (score sentence_scores b < score sentence_scores a)%Q
  \/ ((score sentence_scores a == score sentence_scores b)%Q /\ a < b).

(** A character that is not whitespace. *)
Definition visible (c : N) : bool := negb (is_space c).

(** [not content.strip()] *)
Definition is_blank (content : str) : bool :=
  match strip content with
  | [] => true
  | _ :: _ => false
  end.

(** The entries of a section map that [summarize_sections] does not skip. *)
Definition nonblank_sections (sections : dict str) : dict str :=
  filter (fun entry => negb (is_blank (snd entry))) sections.

(** [print(x)]: what it writes to standard output. *)
Definition print (x : str) : str := x ++ newline.

(** Standard output after the three [print] calls made for every summary, in
    the order of the summary map. *)
Definition report (section_summaries : dict str) : str :=
  flat_map (fun kv =>
              print (fst kv ++ py " Summary:")
              ++ print (snd kv)
              ++ print (repeat 45%N 50))
    section_summaries.

Section Pipeline.
(** [fitz.open(pdf_path)] and [page.get_text("text")] of every page, in page
    order; or the exception either raises. *)
Variable fitz_page_texts : str -> result (list str).
Variable unicode_decimal : N -> bool.
Variable sent_tokenize : str -> list str.
(** [HybridSummarizer()]: [spacy.load] and the two [from_pretrained] calls; the
    models they load are the five variables below. *)
Variable load_models : result unit.
Variable nlp_sents : str -> list str.
Variable tfidf_row_sums : list str -> result (list Q).
Variable bart_encode : nat -> str -> result (list N).
Variable bart_generate : list N -> nat -> nat -> nat -> result (list (list N)).
Variable bart_decode : list N -> result str.

(** [Fig\s*\d+|Table\s*\d+] *)
Definition figure_or_table : regex :=
  [ lit "Fig" ++ [star is_space; plus (digit unicode_decimal)];
    lit "Table" ++ [star is_space; plus (digit unicode_decimal)] ].

(** The body of [for page in doc], [text] being the accumulator. *)
Fixpoint pages_loop (pages : list str) (text : str) : str :=
  match pages with
  | [] => text
  | page_text :: rest =>
      let page_text := re_sub figure_or_table page_text in
      let page_text := re_sub references_heading page_text in
      pages_loop rest (text ++ page_text ++ newline)
  end.

Definition extract_text_from_pdf (pdf_path : str) : result str :=
  pages <- fitz_page_texts pdf_path ;;
  let text := pages_loop pages [] in
  let text := re_sub_with whitespace_run space text in
  Ok (strip text).

(** The value returned, paired with what is written to standard output. *)
Definition process_research_paper (pdf_path : str) : result (dict str * str) :=
  raw_text <- extract_text_from_pdf pdf_path ;;
  let cleaned_text := clean_text unicode_decimal raw_text in
  sections <- split_into_sections sent_tokenize cleaned_text ;;
  summarizer <- load_models ;;
  section_summaries <-
    summarize_sections nlp_sents tfidf_row_sums bart_encode bart_generate bart_decode
      sections ;;
  Ok (section_summaries, report section_summaries).

(** The section map once the first [n] sentences of [text] have been
    processed. *)
Definition sections_after (n : nat) (text : str) : result (dict str) :=
  st <- segment_loop (firstn n (sent_tokenize text)) initial_state ;;
  Ok (sections st).
End Pipeline.

(** A two-page document for the examples. *)
Definition demo_pages (pdf_path : str) : result (list str) :=
  if str_eqb pdf_path (py "paper.pdf") then
    Ok [ [32; 32; 70; 105; 110; 103; 101; 114; 112; 114; 105; 110; 116; 115; 9; 10;
          97; 114; 101; 32; 117; 110; 105; 113; 117; 101; 46; 32; 70; 105; 103; 32; 50; 10]%N;
         py "Results  improve   accuracy. References" ]
  else Raise (OtherError (py "no such file")).

(** A document without pages. *)
Definition empty_document (pdf_path : str) : result (list str) := Ok [].

Definition demo_process_research_paper : str -> result (dict str * str) :=
  process_research_paper demo_pages (fun _ => false) simple_sent_tokenize (Ok tt)
    simple_sent_tokenize count_row_sums echo_encode echo_generate echo_decode.

(* ================================================================== *)
(** ** Strings and dictionaries: basic facts *)
(* ================================================================== *)

Lemma str_eqb_eq (a b : str) : str_eqb a b = true <-> a = b.
Proof.
  revert b; induction a as [|x a IH]; intros [|y b]; simpl; split;
    try congruence; try reflexivity.
  - intros H. apply andb_true_iff in H as [Hx Hab].
    apply N.eqb_eq in Hx. apply IH in Hab. congruence.
  - intros H. injection H as -> ->.
    rewrite N.eqb_refl. simpl. now apply IH.
Qed.

Lemma str_eqb_refl (a : str) : str_eqb a a = true.
Proof. now apply str_eqb_eq. Qed.

Lemma str_eqb_neq (a b : str) : str_eqb a b = false <-> a <> b.
Proof.
  split.
  - intros H E. apply str_eqb_eq in E. congruence.
  - intros H. destruct (str_eqb a b) eqn:E; [|reflexivity].
    apply str_eqb_eq in E. contradiction.
Qed.

Section DictFacts.
Variable V : Type.
Implicit Types (d : dict V) (k : str) (v : V).

Lemma dict_get_in_keys d k : In k (keys d) -> exists v, dict_get d k = Some v.
Proof.
  induction d as [|[k' v'] d IH]; simpl; [tauto|].
  intros [->|H].
  - rewrite str_eqb_refl. eauto.
  - destruct (str_eqb k' k); eauto.
Qed.

Lemma dict_get_some d k v : dict_get d k = Some v -> In (k, v) d.
Proof.
  induction d as [|[k' v'] d IH]; simpl; [discriminate|].
  destruct (str_eqb k' k) eqn:E.
  - apply str_eqb_eq in E. intros [= ->]. left. congruence.
  - auto.
Qed.

Lemma dict_get_none d k : dict_get d k = None <-> ~ In k (keys d).
Proof.
  induction d as [|[k' v'] d IH]; simpl; [tauto|].
  destruct (str_eqb k' k) eqn:E.
  - apply str_eqb_eq in E. split; [discriminate|]. tauto.
  - apply str_eqb_neq in E. rewrite IH. tauto.
Qed.

Lemma dict_get_not_none d k : dict_get d k <> None <-> In k (keys d).
Proof.
  destruct (dict_get d k) eqn:E.
  - split; [|discriminate]. intros _.
    apply dict_get_some in E. apply in_map_iff. now exists (k, v).
  - apply dict_get_none in E. tauto.
Qed.

Lemma keys_dict_set d k v k' :
  In k' (keys (dict_set d k v)) <-> k' = k \/ In k' (keys d).
Proof.
  induction d as [|[k0 v0] d IH]; simpl.
  - intuition congruence.
  - destruct (str_eqb k0 k) eqn:E; simpl.
    + apply str_eqb_eq in E. subst. intuition congruence.
    + rewrite IH. tauto.
Qed.
End DictFacts.

(* ================================================================== *)
(** ** The segmenter: what the loop computes *)
(* ================================================================== *)

Lemma section_order_NoDup : NoDup section_order.
Proof.
  repeat (constructor; [simpl; intuition discriminate|]). constructor.
Qed.

Lemma detect_section_in headers sentence cursor :
  In (detect_section headers sentence cursor) (cursor :: keys headers).
Proof.
  induction headers as [|[section keywords] rest IH]; simpl; [tauto|].
  destruct (any_keyword keywords sentence); simpl in *; tauto.
Qed.

Lemma append_at_absent cursor x d : ~ In cursor (keys d) -> append_at cursor x d = d.
Proof.
  unfold keys.
  induction d as [|[k v] d IH]; simpl; [reflexivity|].
  intros H. rewrite IH by tauto.
  destruct (str_eqb cursor k) eqn:E; [|reflexivity].
  apply str_eqb_eq in E. subst. tauto.
Qed.

Lemma dict_append_spec (d : dict str) (cursor x : str) :
  NoDup (keys d) -> In cursor (keys d) ->
  exists old : str, dict_item d cursor = Ok old
              /\ dict_set d cursor (old ++ x) = append_at cursor x d.
Proof.
  unfold dict_item.
  induction d as [|[k v] d IH]; simpl; [tauto|].
  intros Hnd Hin. inversion Hnd as [|? ? Hk Hnd']; subst.
  destruct (str_eqb k cursor) eqn:E.
  - apply str_eqb_eq in E. subst k. exists v. split; [reflexivity|].
    rewrite str_eqb_refl. fold (append_at cursor x d).
    now rewrite append_at_absent.
  - assert (Hc : str_eqb cursor k = false).
    { apply str_eqb_neq. apply str_eqb_neq in E. congruence. }
    rewrite Hc. apply str_eqb_neq in E.
    destruct IH as [old [Hget Hset]]; [assumption|tauto|].
    exists old. split; [assumption|]. now rewrite Hset.
Qed.

Lemma keys_append_at cursor x d : keys (append_at cursor x d) = keys d.
Proof. unfold keys, append_at. rewrite map_map. reflexivity. Qed.

Lemma last_cons {A} (a d : A) l : last (a :: l) d = last l a.
Proof.
  revert a d; induction l as [|b l IH]; intros a d; [reflexivity|].
  change (last (a :: b :: l) d) with (last (b :: l) d).
  now rewrite !IH.
Qed.

Lemma segment_step_spec st sentence :
  NoDup (keys (sections st)) ->
  In (current_section st) (keys (sections st)) ->
  incl section_order (keys (sections st)) ->
  let cursor := detect_section section_headers sentence (current_section st) in
  segment_step st sentence
  = Ok (SegState cursor (append_at cursor (sentence ++ space) (sections st))).
Proof.
  intros Hnd Hcur Hincl cursor. unfold segment_step. cbv zeta. fold cursor.
  assert (Hin : In cursor (keys (sections st))).
  { destruct (detect_section_in section_headers sentence (current_section st))
      as [E|E]; fold cursor in E.
    - now rewrite <- E.
    - now apply Hincl. }
  destruct (dict_append_spec (sections st) cursor (sentence ++ space) Hnd Hin)
    as [old [Hget Hset]].
  rewrite Hget. simpl. now rewrite Hset.
Qed.

Lemma segment_loop_spec sentences : forall cursor d,
  NoDup (keys d) -> In cursor (keys d) -> incl section_order (keys d) ->
  segment_loop sentences (SegState cursor d)
  = Ok (SegState (last (cursor_trace sentences cursor) cursor)
          (map (fun kv => (fst kv, snd kv ++ accumulate (bucket (fst kv) sentences cursor))) d)).
Proof.
  induction sentences as [|sentence rest IH]; intros cursor d Hnd Hcur Hincl.
  - simpl. f_equal. f_equal. rewrite <- (map_id d) at 1.
    apply map_ext. intros [k v]. simpl. now rewrite app_nil_r.
  - cbn [segment_loop].
    rewrite (segment_step_spec (SegState cursor d) sentence Hnd Hcur Hincl).
    cbn [bind current_section sections cursor_trace].
    set (cursor' := detect_section section_headers sentence cursor).
    assert (Hin : In cursor' (keys d)).
    { destruct (detect_section_in section_headers sentence cursor) as [E|E];
        fold cursor' in E; [now rewrite <- E | now apply Hincl]. }
    rewrite IH; rewrite ?keys_append_at; try assumption.
    rewrite last_cons. f_equal. f_equal.
    unfold append_at. rewrite map_map. apply map_ext. intros [k v].
    cbn [fst snd bucket]. fold cursor'. f_equal.
    destruct (str_eqb cursor' k); [|reflexivity].
    unfold accumulate. simpl. now rewrite <- !app_assoc.
Qed.

Lemma split_into_sections_spec (sent_tokenize : str -> list str) (text : str) :
  split_into_sections sent_tokenize text
  = Ok (map (fun section =>
               (section, accumulate (bucket section (sent_tokenize text) (py "Title"))))
          section_order).
Proof.
  unfold split_into_sections, initial_state.
  rewrite segment_loop_spec.
  - reflexivity.
  - unfold keys. rewrite map_map. apply section_order_NoDup.
  - unfold keys. rewrite map_map. simpl. tauto.
  - unfold keys. rewrite map_map. apply incl_refl.
Qed.

Lemma cursor_after_spec (sent_tokenize : str -> list str) (n : nat) (text : str) :
  cursor_after sent_tokenize n text
  = Ok (last (cursor_trace (firstn n (sent_tokenize text)) (py "Title")) (py "Title")).
Proof.
  unfold cursor_after, initial_state.
  rewrite segment_loop_spec.
  - reflexivity.
  - unfold keys. rewrite map_map. apply section_order_NoDup.
  - unfold keys. rewrite map_map. simpl. tauto.
  - unfold keys. rewrite map_map. apply incl_refl.
Qed.

Lemma dict_get_tabulate {V} (f : str -> V) (ks : list str) (k : str) :
  In k ks -> dict_get (map (fun section => (section, f section)) ks) k = Some (f k).
Proof.
  induction ks as [|k0 ks IH]; simpl; [tauto|].
  destruct (str_eqb k0 k) eqn:E.
  - apply str_eqb_eq in E. now subst.
  - apply str_eqb_neq in E. intros [?|?]; [contradiction|auto].
Qed.

Lemma detect_section_unmatched headers sentence cursor :
  (forall entry, In entry headers -> any_keyword (snd entry) sentence = false) ->
  detect_section headers sentence cursor = cursor.
Proof.
  induction headers as [|[section keywords] rest IH]; intros H; simpl; [reflexivity|].
  pose proof (H (section, keywords) (or_introl eq_refl)) as E. simpl in E. rewrite E.
  apply IH. intros entry He. apply H. now right.
Qed.

Lemma detect_section_first_match before section keywords after sentence cursor :
  any_keyword keywords sentence = true ->
  (forall entry, In entry before -> any_keyword (snd entry) sentence = false) ->
  detect_section (before ++ (section, keywords) :: after) sentence cursor = section.
Proof.
  intros Hmatch. induction before as [|[section' keywords'] before IH]; intros H; simpl.
  - now rewrite Hmatch.
  - pose proof (H (section', keywords') (or_introl eq_refl)) as E. simpl in E.
    rewrite E. apply IH. intros entry He. apply H. now right.
Qed.

Lemma bucket_subsequence section sentences : forall cursor,
  subsequence (bucket section sentences cursor) sentences.
Proof.
  induction sentences as [|sentence rest IH]; intros cursor; simpl.
  - constructor.
  - destruct (str_eqb _ section); constructor; apply IH.
Qed.

Lemma flat_map_ext_on {A B} (f g : A -> list B) (l : list A) :
  (forall a, In a l -> f a = g a) -> flat_map f l = flat_map g l.
Proof.
  induction l as [|a l IH]; intros H; simpl; [reflexivity|].
  rewrite (H a) by (now left). f_equal. apply IH. intros b Hb. apply H. now right.
Qed.

Lemma flat_map_insert (c s : str) (B : str -> list str) (ks : list str) :
  NoDup ks -> In c ks ->
  Permutation (flat_map (fun k => if str_eqb c k then s :: B k else B k) ks)
              (s :: flat_map B ks).
Proof.
  induction ks as [|k ks IH]; simpl; [tauto|].
  intros Hnd Hin. inversion Hnd as [|? ? Hk Hnd']; subst.
  destruct (str_eqb c k) eqn:E.
  - apply str_eqb_eq in E. subst k. simpl. constructor.
    apply Permutation_app_head.
    rewrite (flat_map_ext_on _ B ks); [reflexivity|].
    intros k Hin'. destruct (str_eqb c k) eqn:E; [|reflexivity].
    apply str_eqb_eq in E. subst k. contradiction.
  - apply str_eqb_neq in E. destruct Hin as [?|Hin]; [congruence|].
    rewrite (IH Hnd' Hin). symmetry. apply Permutation_middle.
Qed.

Lemma buckets_permutation sentences : forall cursor ks,
  NoDup ks -> In cursor ks -> incl section_order ks ->
  Permutation (flat_map (fun k => bucket k sentences cursor) ks) sentences.
Proof.
  induction sentences as [|sentence rest IH]; intros cursor ks Hnd Hcur Hincl.
  - replace (flat_map (fun k => bucket k [] cursor) ks) with (@nil str);
      [constructor|].
    clear. induction ks as [|k ks IH]; simpl; auto.
  - cbn [bucket]. set (cursor' := detect_section section_headers sentence cursor).
    assert (Hin : In cursor' ks).
    { destruct (detect_section_in section_headers sentence cursor) as [E|E];
        fold cursor' in E; [now rewrite <- E | now apply Hincl]. }
    etransitivity;
      [exact (flat_map_insert cursor' sentence (fun k => bucket k rest cursor') ks Hnd Hin)|].
    constructor. now apply IH.
Qed.

Lemma accumulate_app l1 l2 : accumulate (l1 ++ l2) = accumulate l1 ++ accumulate l2.
Proof. unfold accumulate. apply flat_map_app. Qed.

Lemma accumulate_flat_map {A} (f : A -> list str) (l : list A) :
  accumulate (flat_map f l) = flat_map (fun a => accumulate (f a)) l.
Proof.
  induction l as [|a l IH]; simpl; [reflexivity|].
  now rewrite accumulate_app, IH.
Qed.

Lemma concatenated_tabulate (f : str -> str) :
  concatenated_sections (map (fun section => (section, f section)) section_order)
  = flat_map f section_order.
Proof.
  unfold concatenated_sections. apply flat_map_ext_on.
  intros section Hin. now rewrite dict_get_tabulate.
Qed.

Lemma subsequence_in {A} (l1 l2 : list A) (a : A) :
  subsequence l1 l2 -> In a l1 -> In a l2.
Proof.
  induction 1; simpl; intuition.
Qed.

Lemma accumulate_nil_inv l : accumulate l = [] -> l = [].
Proof.
  destruct l as [|sentence l]; [reflexivity|].
  unfold accumulate. simpl. intros H.
  apply app_eq_nil in H as [H _]. apply app_eq_nil in H as [_ H]. discriminate.
Qed.

Lemma accumulate_last l :
  l <> [] ->
  exists front sentence, In sentence l /\ accumulate l = front ++ sentence ++ space.
Proof.
  intros H. destruct (exists_last H) as [l' [sentence ->]].
  exists (accumulate l'), sentence. split.
  - apply in_or_app. right. now left.
  - rewrite accumulate_app. unfold accumulate at 2. simpl. now rewrite app_nil_r.
Qed.

Lemma bucket_unmatched section sentences cursor :
  (forall sentence, In sentence sentences -> no_keyword sentence) ->
  bucket section sentences cursor = if str_eqb cursor section then sentences else [].
Proof.
  induction sentences as [|sentence rest IH]; intros H; cbn [bucket].
  - now destruct (str_eqb cursor section).
  - rewrite (detect_section_unmatched section_headers sentence cursor)
      by (apply H; now left).
    rewrite IH by (intros s' Hs'; apply H; now right).
    now destruct (str_eqb cursor section).
Qed.

Lemma cursor_trace_unmatched sentences cursor :
  (forall sentence, In sentence sentences -> no_keyword sentence) ->
  last (cursor_trace sentences cursor) cursor = cursor.
Proof.
  induction sentences as [|sentence rest IH]; intros H; [reflexivity|].
  cbn [cursor_trace].
  rewrite (detect_section_unmatched section_headers sentence cursor)
    by (apply H; now left).
  rewrite last_cons. apply IH. intros s' Hs'. apply H. now right.
Qed.

Lemma in_firstn_in {A} (n : nat) (l : list A) (a : A) : In a (firstn n l) -> In a l.
Proof.
  intros H. rewrite <- (firstn_skipn n l). apply in_or_app. now left.
Qed.

(* ================================================================== *)
(** ** The segmenter: the specification's statements *)
(* ================================================================== *)

(** C1, as the specification words it, fails: on "Results improved. Abstract
    follows." the values concatenated in declared order read "Abstract
    follows. Results improved. ", the second sentence before the first. *)
Lemma sections_not_in_original_order :
  exists d,
    split_into_sections simple_sent_tokenize crossing_text = Ok d
    /\ concatenated_sections d = py "Abstract follows. Results improved. "
    /\ accumulate (simple_sent_tokenize crossing_text)
       = py "Results improved. Abstract follows. "
    /\ concatenated_sections d <> accumulate (simple_sent_tokenize crossing_text).
Proof.
  eexists. split; [vm_compute; reflexivity|].
  split; [vm_compute; reflexivity|].
  split; [vm_compute; reflexivity|].
  vm_compute. discriminate.
Qed.

(** C1, amended: the section map partitions the tokenized sentences.  Each
    value is the accumulated text of the sentences the cursor sent there; those
    sentences are a subsequence of the original sequence (original order is
    kept inside a section); and the values concatenated in declared order hold
    a permutation of the original sequence, every sentence exactly once. *)
Theorem sections_partition_sentences (sent_tokenize : str -> list str) (text : str) :
  let sentences := sent_tokenize text in
  let assigned section := bucket section sentences (py "Title") in
  exists d,
    split_into_sections sent_tokenize text = Ok d
    /\ keys d = section_order
    /\ (forall section, In section section_order ->
          dict_get d section = Some (accumulate (assigned section)))
    /\ concatenated_sections d = accumulate (flat_map assigned section_order)
    /\ Permutation (flat_map assigned section_order) sentences
    /\ (forall section, subsequence (assigned section) sentences).
Proof.
  intros sentences assigned. eexists.
  split; [apply split_into_sections_spec|].
  split; [reflexivity|].
  split; [|split; [|split]].
  - intros section Hin.
    apply (dict_get_tabulate (fun k => accumulate (assigned k))). exact Hin.
  - rewrite accumulate_flat_map.
    apply (concatenated_tabulate (fun k => accumulate (assigned k))).
  - apply buckets_permutation.
    + apply section_order_NoDup.
    + simpl. tauto.
    + apply incl_refl.
  - intros section. apply bucket_subsequence.
Qed.

(** The earliest section wins among three as among two: "Our methods, results
    and discussion agree." has keywords of Methods, Results and Discussion, and
    goes to Methods. *)
Lemma results_and_discussion_can_go_to_methods :
  contains (py "results") (lower three_keyword_sentence) = true
  /\ contains (py "discussion") (lower three_keyword_sentence) = true
  /\ detect_section section_headers three_keyword_sentence (py "Title") = py "Methods"
  /\ segment_step initial_state three_keyword_sentence
     = Ok (SegState (py "Methods")
             (append_at (py "Methods") (three_keyword_sentence ++ space)
                (sections initial_state)))
  /\ detect_section section_headers three_keyword_sentence (py "Title") <> py "Results".
Proof.
  repeat split; try (vm_compute; reflexivity).
  vm_compute. discriminate.
Qed.



(** C4: when no tokenized sentence contains a section keyword in its
    lower-cased form, the cursor never leaves Title: the Title value is every
    sentence in order, each followed by a space, and the six other values are
    empty. *)
Theorem no_keyword_all_title (sent_tokenize : str -> list str) (text : str) :
  (forall sentence, In sentence (sent_tokenize text) -> no_keyword sentence) ->
  split_into_sections sent_tokenize text
  = Ok [ (py "Title", accumulate (sent_tokenize text));
         (py "Abstract", []);
         (py "Introduction", []);
         (py "Methods", []);
         (py "Results", []);
         (py "Discussion", []);
         (py "Conclusion", []) ]
  /\ (forall n, cursor_after sent_tokenize n text = Ok (py "Title")).
Proof.
  intros H. split.
  - rewrite split_into_sections_spec. unfold section_order. cbn [keys map section_headers fst].
    rewrite !(bucket_unmatched _ _ _ H). reflexivity.
  - intros n. rewrite cursor_after_spec. f_equal.
    apply cursor_trace_unmatched.
    intros sentence Hin. apply H. revert Hin. apply in_firstn_in.
Qed.

Lemma plain_text_sentences :
  simple_sent_tokenize plain_text = [py "We ran it twice."; py "It worked."].
Proof. vm_compute. reflexivity. Qed.

Lemma no_keyword_all_title_witness :
  split_into_sections simple_sent_tokenize plain_text
  = Ok [ (py "Title", accumulate (simple_sent_tokenize plain_text));
         (py "Abstract", []);
         (py "Introduction", []);
         (py "Methods", []);
         (py "Results", []);
         (py "Discussion", []);
         (py "Conclusion", []) ]
  /\ (forall n, cursor_after simple_sent_tokenize n plain_text = Ok (py "Title")).
Proof.
  apply (no_keyword_all_title simple_sent_tokenize plain_text).
  intros sentence Hin entry Hentry.
  vm_compute in Hin.
  destruct Hin as [<-|[<-|[]]];
    repeat (destruct Hentry as [<-|Hentry]; [vm_compute; reflexivity|]);
    destruct Hentry.
Defined.

(** C8: on the specification's example text, once tokenized into its five
    sentences, the cursor is Methods after sentences 1 and 2, Results after
    sentence 3, Discussion after sentence 4 and Methods again after sentence 5;
    Methods holds sentences 1, 2 and 5 in that order, Results sentence 3,
    Discussion sentence 4, and the four other sections stay empty. *)
Theorem example_segmentation (sent_tokenize : str -> list str) :
  sent_tokenize example_text = example_sentences ->
  split_into_sections sent_tokenize example_text
  = Ok [ (py "Title", []);
         (py "Abstract", []);
         (py "Introduction", []);
         (py "Methods",
          py "This paper presents Methods. We used X. Methods section reviewed again. ");
         (py "Results", py "Results show Y improved. ");
         (py "Discussion", py "In Discussion, Z holds. ");
         (py "Conclusion", []) ]
  /\ map (fun n => cursor_after sent_tokenize n example_text) [0; 1; 2; 3; 4; 5]
     = map (fun section => Ok (py section))
         ["Title"; "Methods"; "Methods"; "Results"; "Discussion"; "Methods"]%string.
Proof.
  intros H. unfold split_into_sections, cursor_after. cbn [map]. rewrite H.
  split; vm_compute; reflexivity.
Qed.

Lemma example_segmentation_witness :
  split_into_sections simple_sent_tokenize example_text
  = Ok [ (py "Title", []);
         (py "Abstract", []);
         (py "Introduction", []);
         (py "Methods",
          py "This paper presents Methods. We used X. Methods section reviewed again. ");
         (py "Results", py "Results show Y improved. ");
         (py "Discussion", py "In Discussion, Z holds. ");
         (py "Conclusion", []) ]
  /\ map (fun n => cursor_after simple_sent_tokenize n example_text) [0; 1; 2; 3; 4; 5]
     = map (fun section => Ok (py section))
         ["Title"; "Methods"; "Methods"; "Results"; "Discussion"; "Methods"]%string.
Proof.
  apply (example_segmentation simple_sent_tokenize).
  vm_compute. reflexivity.
Defined.

(** C10: the segmenter always returns a map with exactly the seven keys, in
    declared order.  A section that received no sentence is bound to the empty
    string.  A non-empty value ends with the space appended after the last
    sentence it received; and when no tokenized sentence is empty or ends with
    a space itself, that trailing space is a single one. *)
Theorem section_map_shape (sent_tokenize : str -> list str) (text : str) :
  exists d,
    split_into_sections sent_tokenize text = Ok d
    /\ keys d = map py ["Title"; "Abstract"; "Introduction"; "Methods";
                        "Results"; "Discussion"; "Conclusion"]%string
    /\ (forall section, In section (keys d) ->
          bucket section (sent_tokenize text) (py "Title") = [] ->
          dict_get d section = Some [])
    /\ (forall section content,
          dict_get d section = Some content -> content <> [] ->
          (exists front sentence,
              In sentence (sent_tokenize text)
              /\ content = front ++ sentence ++ space)
          /\ ends_with space content
          /\ ((forall sentence, In sentence (sent_tokenize text) ->
                 sentence <> [] /\ ~ ends_with space sentence) ->
              ~ ends_with (space ++ space) content)).
Proof.
  eexists. split; [apply split_into_sections_spec|].
  split; [reflexivity|]. split.
  - intros section Hin Hempty.
    rewrite (dict_get_tabulate
               (fun k => accumulate (bucket k (sent_tokenize text) (py "Title")))).
    + now rewrite Hempty.
    + exact Hin.
  - intros section content Hget Hne.
    apply dict_get_some in Hget. apply in_map_iff in Hget as [k [E Hin]].
    injection E as -> <-.
    set (assigned := bucket section (sent_tokenize text) _) in *.
    assert (Hassigned : assigned <> []).
    { intros E. apply Hne. now rewrite E. }
    destruct (accumulate_last assigned Hassigned) as [front [sentence [Hs Hacc]]].
    assert (Hsent : In sentence (sent_tokenize text)).
    { apply (subsequence_in assigned); [apply bucket_subsequence | exact Hs]. }
    split; [now exists front, sentence|].
    split.
    + exists (front ++ sentence). now rewrite <- app_assoc.
    + intros Htidy [front' Hdouble].
      destruct (Htidy sentence Hsent) as [Hnonempty Hnospace].
      destruct (exists_last Hnonempty) as [s' [c Hc]].
      apply Hnospace. exists s'.
      rewrite Hacc, Hc in Hdouble.
      change space with [32%N] in *.
      rewrite !app_assoc in Hdouble.
      apply app_inj_tail in Hdouble as [Hdouble _].
      rewrite <- app_assoc in Hdouble.
      rewrite app_assoc in Hdouble.
      apply app_inj_tail in Hdouble as [_ ->]. exact Hc.
Qed.

(* ================================================================== *)
(** ** The cleaner *)
(* ================================================================== *)

Lemma sub_special_character (s : str) :
  re_sub special_character s = filter kept_char s.
Proof.
  unfold re_sub. induction s as [|c s IH]; [reflexivity|].
  cbn [sub_from filter]. unfold special_character at 1.
  cbn [match_regex match_branch one match_exactly].
  destruct (kept_char c); cbn [negb option_map]; now rewrite IH.
Qed.

Lemma lstrip_incl (s : str) : incl (lstrip s) s.
Proof.
  induction s as [|c s IH]; simpl; [apply incl_refl|].
  destruct (is_space c); [now apply incl_tl | apply incl_refl].
Qed.

Lemma strip_incl (s : str) : incl (strip s) s.
Proof.
  unfold strip, rstrip. intros c Hc.
  apply in_rev in Hc. apply lstrip_incl in Hc. apply in_rev in Hc.
  now apply lstrip_incl.
Qed.

Lemma kept_char_cases (c : N) :
  kept_char c = true ->
  is_ascii_lower c = true \/ is_ascii_upper c = true \/ is_ascii_digit c = true
  \/ In c (py ".,!?;:()") \/ is_space c = true.
Proof.
  unfold kept_char. rewrite !orb_true_iff.
  intros [[[[H|H]|H]|H]|H]; auto.
  right; right; right; left.
  unfold is_basic_punctuation in H. apply existsb_exists in H as [x [Hx E]].
  apply N.eqb_eq in E. now subst.
Qed.

Example clean_text_metadata_and_citations :
  clean_text (fun _ => false)
    (py "  Vol. eissn: 1234 Impact factor of this is 3.45 hello [12] world (Smith et al., 2020) and (see x) ISO 90011 iso 12 Volume: 3 Issue:4 a_b-c* d&e.  ")
  = py "Vol.   hello  world  and (see x)  iso 12  abc de.".
Proof. vm_compute. reflexivity. Qed.

Example clean_text_nested_parentheses :
  clean_text (fun _ => false) (py "(a) and (b 2020 c) (d) 12345) x") = py "x".
Proof. vm_compute. reflexivity. Qed.

(** A no-break space (U+00A0) is whitespace and stays; an en dash (U+2013) and
    an e with acute accent (U+00E9) go. *)
Example clean_text_unicode :
  clean_text (fun _ => false) [82; 233; 115; 117; 109; 233; 160; 8211; 160; 111; 107; 46]%N
  = [82; 115; 117; 109; 160; 160; 111; 107; 46]%N.
Proof. vm_compute. reflexivity. Qed.

(** C5: whatever the input, every character of the cleaned text is an ASCII
    letter, an ASCII digit, one of [. , ! ? ; : ( )], or whitespace: the last
    substitution deletes all others and the trimming adds none. *)
Theorem clean_text_alphabet (unicode_decimal : N -> bool) (text : str) :
  Forall (fun c =>
            is_ascii_lower c = true \/ is_ascii_upper c = true
            \/ is_ascii_digit c = true \/ In c (py ".,!?;:()")
            \/ is_space c = true)
         (clean_text unicode_decimal text).
Proof.
  apply Forall_forall. intros c Hc. apply kept_char_cases.
  unfold clean_text in Hc. cbv zeta in Hc.
  apply strip_incl in Hc. rewrite sub_special_character in Hc.
  now apply filter_In in Hc.
Qed.

(* ================================================================== *)
(** ** [sorted] sorts *)
(* ================================================================== *)

Section SortedFacts.
Variable A : Type.
Variable precedes : A -> A -> bool.

Hypothesis precedes_asym : forall a b, precedes a b = true -> precedes b a = false.
Hypothesis may_precede_trans :
  forall a b c, may_precede precedes a b -> may_precede precedes b c -> may_precede precedes a c.

Lemma insert_sorted_perm x l : Permutation (insert_sorted precedes x l) (x :: l).
Proof.
  induction l as [|y l IH]; simpl; [reflexivity|].
  destruct (precedes y x); [|reflexivity].
  rewrite IH. apply perm_swap.
Qed.

Lemma sorted_perm l : Permutation (sorted precedes l) l.
Proof.
  induction l as [|x l IH]; simpl; [reflexivity|].
  rewrite insert_sorted_perm. now constructor.
Qed.

Lemma insert_sorted_ordered x l :
  StronglySorted (may_precede precedes) l ->
  StronglySorted (may_precede precedes) (insert_sorted precedes x l).
Proof.
  induction 1 as [|y l Hl IH Hy]; simpl.
  - repeat constructor.
  - destruct (precedes y x) eqn:E.
    + constructor; [exact IH|].
      apply Forall_forall. intros z Hz.
      apply (Permutation_in _ (insert_sorted_perm x l)) in Hz.
      destruct Hz as [<-|Hz].
      * now apply precedes_asym.
      * rewrite Forall_forall in Hy. now apply Hy.
    + constructor; [now constructor|].
      constructor; [exact E|].
      apply Forall_forall. intros z Hz.
      rewrite Forall_forall in Hy.
      apply (may_precede_trans x y z); [exact E | now apply Hy].
Qed.

Lemma sorted_ordered l : StronglySorted (may_precede precedes) (sorted precedes l).
Proof.
  induction l as [|x l IH]; simpl; [constructor|].
  now apply insert_sorted_ordered.
Qed.
End SortedFacts.

Lemma strongly_sorted_app {A} (R : A -> A -> Prop) (l1 l2 : list A) :
  StronglySorted R (l1 ++ l2) ->
  forall a b, In a l1 -> In b l2 -> R a b.
Proof.
  induction l1 as [|x l1 IH]; simpl; intros H a b Ha Hb; [tauto|].
  apply StronglySorted_inv in H as [H Hx].
  destruct Ha as [<-|Ha]; [|now apply IH].
  rewrite Forall_forall in Hx. apply Hx. apply in_or_app. now right.
Qed.

Lemma strongly_sorted_strict (l : list nat) :
  StronglySorted (fun a b => Nat.ltb b a = false) l -> NoDup l ->
  StronglySorted lt l.
Proof.
  induction 1 as [|x l Hl IH Hx]; intros Hnd; constructor;
    inversion Hnd as [|? ? Hnotin Hnd']; subst.
  - now apply IH.
  - rewrite Forall_forall in *. intros y Hy.
    specialize (Hx y Hy). apply Nat.ltb_ge in Hx.
    assert (x <> y) by (intros ->; contradiction). lia.
Qed.

Lemma mapM_list_item {A} (l : list A) (d : A) (indices : list nat) :
  Forall (fun i => i < length l) indices ->
  mapM (list_item l) indices = Ok (map (fun i => nth i l d) indices).
Proof.
  induction 1 as [|i indices Hi _ IH]; [reflexivity|].
  cbn [mapM map]. unfold list_item at 1.
  destruct (nth_error l i) eqn:E.
  - cbn [bind]. rewrite IH. cbn [bind].
    now rewrite (nth_error_nth _ _ d E).
  - apply nth_error_None in E. lia.
Qed.

Lemma Qlt_bool_false_iff (a b : Q) : Qlt_bool a b = false <-> (b <= a)%Q.
Proof.
  unfold Qlt_bool. rewrite negb_false_iff. apply Qle_bool_iff.
Qed.

Lemma Qlt_bool_true_iff (a b : Q) : Qlt_bool a b = true <-> (a < b)%Q.
Proof.
  unfold Qlt_bool. rewrite negb_true_iff. split.
  - intros H. apply Qnot_le_lt. intros Hle. apply Qle_bool_iff in Hle. congruence.
  - intros H. destruct (Qle_bool b a) eqn:E; [|reflexivity].
    apply Qle_bool_iff in E. exfalso. revert E. now apply Qlt_not_le.
Qed.

(* ================================================================== *)
(** ** The summarizer *)
(* ================================================================== *)

Section Ranking.
Variable scores : list Q.

Local Abbreviation score := (score scores).
Local Abbreviation outranks := (outranks scores).
Local Abbreviation ranked := (ranked scores).

Lemma outranks_asym a b : outranks a b = true -> outranks b a = false.
Proof.
  unfold outranks. rewrite Qlt_bool_true_iff, Qlt_bool_false_iff.
  apply Qlt_le_weak.
Qed.

Lemma outranks_trans a b c :
  may_precede outranks a b -> may_precede outranks b c -> may_precede outranks a c.
Proof.
  unfold may_precede, outranks. rewrite !Qlt_bool_false_iff.
  intros Hab Hbc. now apply Qle_trans with (score b).
Qed.

Lemma ranked_perm : Permutation ranked (seq 0 (length scores)).
Proof. apply sorted_perm. Qed.

Lemma ranked_descending : StronglySorted (may_precede outranks) ranked.
Proof. apply sorted_ordered; [exact outranks_asym | exact outranks_trans]. Qed.

Lemma ranked_in i : In i ranked <-> i < length scores.
Proof.
  split; intros H.
  - apply (Permutation_in _ ranked_perm) in H. apply in_seq in H. lia.
  - apply (Permutation_in _ (Permutation_sym ranked_perm)). apply in_seq. lia.
Qed.

Lemma ranked_NoDup : NoDup ranked.
Proof.
  apply (Permutation_NoDup (Permutation_sym ranked_perm)). apply seq_NoDup.
Qed.

Lemma top_outscores_rest k i j :
  In i (firstn k ranked) -> j < length scores -> ~ In j (firstn k ranked) ->
  (score j <= score i)%Q.
Proof.
  intros Hi Hj Hnot. apply Qlt_bool_false_iff.
  apply (strongly_sorted_app (may_precede outranks) (firstn k ranked) (skipn k ranked)).
  - rewrite firstn_skipn. apply ranked_descending.
  - exact Hi.
  - apply ranked_in in Hj. rewrite <- (firstn_skipn k ranked) in Hj.
    apply in_app_or in Hj. tauto.
Qed.
End Ranking.

Lemma slice_to_nat {A} (k : nat) (l : list A) : slice_to (Z.of_nat k) l = firstn k l.
Proof.
  unfold slice_to, slice_stop.
  destruct (Z.ltb_spec (Z.of_nat k) 0) as [H|_]; [lia|].
  rewrite Nat2Z.id.
  destruct (Nat.le_gt_cases k (length l)) as [H|H].
  - now rewrite Nat.min_l.
  - rewrite Nat.min_r by lia. rewrite firstn_all. symmetry. apply firstn_all2. lia.
Qed.



Example extractive_summary_six_sentences :
  extractive_summary simple_sent_tokenize count_row_sums six_sentence_text 3
  = Ok (py "Ridge patterns identify fingerprints. Noise blurs images badly. Deep networks classify fingerprint images accurately.").
Proof. vm_compute. reflexivity. Qed.

Section SummarizeSections.
Variable nlp_sents : str -> list str.
Variable tfidf_row_sums : list str -> result (list Q).
Variable bart_encode : nat -> str -> result (list N).
Variable bart_generate : list N -> nat -> nat -> nat -> result (list (list N)).
Variable bart_decode : list N -> result str.

Local Abbreviation run :=
  (run_strategy nlp_sents tfidf_row_sums bart_encode bart_generate bart_decode).
Local Abbreviation loop :=
  (summarize_loop nlp_sents tfidf_row_sums bart_encode bart_generate bart_decode).

Lemma summarize_loop_blank section content rest summaries :
  strip content = [] ->
  loop ((section, content) :: rest) summaries = loop rest summaries.
Proof. intros H. cbn [summarize_loop]. now rewrite H. Qed.

Lemma summarize_loop_step section content rest summaries :
  strip content <> [] ->
  loop ((section, content) :: rest) summaries
  = (summary <- run (strategy_for section) content ;;
     loop rest (dict_set summaries section summary)).
Proof.
  intros H. cbn [summarize_loop]. destruct (strip content); [contradiction|reflexivity].
Qed.

Lemma summarize_loop_keys items : forall summaries result,
  loop items summaries = Ok result ->
  forall section,
    In section (keys result)
    <-> In section (keys summaries)
        \/ exists content, In (section, content) items /\ strip content <> [].
Proof.
  induction items as [|[section0 content0] rest IH]; intros summaries result Hrun section.
  - simpl in Hrun. injection Hrun as <-. split; [tauto|].
    intros [H|[content [[] _]]]. exact H.
  - destruct (strip content0) eqn:Hblank.
    + rewrite summarize_loop_blank in Hrun by exact Hblank.
      rewrite (IH _ _ Hrun). split; intros [H|[content [Hin Hne]]]; auto.
      * right. exists content. split; [now right|exact Hne].
      * destruct Hin as [E|Hin]; [injection E as <- <-; contradiction|].
        right. now exists content.
    + assert (Hne0 : strip content0 <> []) by (rewrite Hblank; discriminate).
      rewrite summarize_loop_step in Hrun by exact Hne0.
      destruct (run (strategy_for section0) content0) as [summary|e];
        [|discriminate].
      cbn [bind] in Hrun. rewrite (IH _ _ Hrun), keys_dict_set.
      split.
      * intros [[->|H]|[content [Hin Hne]]]; auto.
        -- right. exists content0. split; [now left|exact Hne0].
        -- right. exists content. split; [now right|exact Hne].
      * intros [H|[content [[E|Hin] Hne]]]; auto.
        -- injection E as <- <-. auto.
        -- right. now exists content.
Qed.

Lemma summarize_loop_succeeds items : forall summaries,
  (forall entry, In entry items -> strip (snd entry) <> [] ->
     exists summary, run (strategy_for (fst entry)) (snd entry) = Ok summary) ->
  exists result, loop items summaries = Ok result.
Proof.
  induction items as [|[section0 content0] rest IH]; intros summaries Hall.
  - now exists summaries.
  - destruct (strip content0) eqn:Hblank.
    + rewrite summarize_loop_blank by exact Hblank.
      apply IH. intros entry Hin. apply Hall. now right.
    + assert (Hne0 : strip content0 <> []) by (rewrite Hblank; discriminate).
      rewrite summarize_loop_step by exact Hne0.
      destruct (Hall (section0, content0) (or_introl eq_refl) Hne0) as [summary Hrun].
      simpl in Hrun. rewrite Hrun. cbn [bind].
      apply IH. intros entry Hin. apply Hall. now right.
Qed.

Lemma summarize_loop_fails items : forall section content e,
  In (section, content) items -> strip content <> [] ->
  run (strategy_for section) content = Raise e ->
  exists before failing text after e',
    items = before ++ (failing, text) :: after
    /\ strip text <> []
    /\ run (strategy_for failing) text = Raise e'
    /\ (forall entry, In entry before -> strip (snd entry) <> [] ->
          exists summary, run (strategy_for (fst entry)) (snd entry) = Ok summary)
    /\ (forall after' summaries,
          loop (before ++ (failing, text) :: after') summaries = Raise e').
Proof.
  induction items as [|[section0 content0] rest IH]; intros section content e Hin Hne Hraise.
  - destruct Hin.
  - destruct (strip content0) eqn:Hblank.
    + destruct Hin as [E|Hin]; [injection E as <- <-; contradiction|].
      destruct (IH _ _ _ Hin Hne Hraise)
        as (before & failing & text & after & e' & -> & Ht & Hr & Hb & Hl).
      exists ((section0, content0) :: before), failing, text, after, e'.
      repeat split; auto.
      * intros entry [<-|He] Hentry; [contradiction|]. now apply Hb.
      * intros after' summaries. cbn [app].
        rewrite summarize_loop_blank by exact Hblank. apply Hl.
    + assert (Hne0 : strip content0 <> []) by (rewrite Hblank; discriminate).
      destruct (run (strategy_for section0) content0) as [summary|e0] eqn:Hrun0.
      * destruct Hin as [E|Hin]; [injection E as <- <-; congruence|].
        destruct (IH _ _ _ Hin Hne Hraise)
          as (before & failing & text & after & e' & -> & Ht & Hr & Hb & Hl).
        exists ((section0, content0) :: before), failing, text, after, e'.
        repeat split; auto.
        -- intros entry [<-|He] Hentry; [now exists summary|]. now apply Hb.
        -- intros after' summaries. cbn [app].
           rewrite summarize_loop_step by exact Hne0.
           rewrite Hrun0. cbn [bind]. apply Hl.
      * exists [], section0, content0, rest, e0.
        repeat split; auto.
        -- intros entry [].
        -- intros after' summaries. cbn [app].
           rewrite summarize_loop_step by exact Hne0.
           now rewrite Hrun0.
Qed.
End SummarizeSections.

(* ================================================================== *)
(** ** The summarizer: the specification's statements *)
(* ================================================================== *)


Section SummarizerStatements.
Variable nlp_sents : str -> list str.
Variable tfidf_row_sums : list str -> result (list Q).
Variable bart_encode : nat -> str -> result (list N).
Variable bart_generate : list N -> nat -> nat -> nat -> result (list (list N)).
Variable bart_decode : list N -> result str.

Local Abbreviation run :=
  (run_strategy nlp_sents tfidf_row_sums bart_encode bart_generate bart_decode).
Local Abbreviation summarize :=
  (summarize_sections nlp_sents tfidf_row_sums bart_encode bart_generate bart_decode).


(** C7: when [summarize_sections] returns a summary map, its keys are exactly
    the sections of the section map whose content is not empty after trimming.
    So every key of the summary map is a key of the section map, and a section
    whose content is empty or whitespace has no entry at all. *)
Theorem summary_only_for_nonblank_sections (sections summaries : dict str) :
  summarize sections = Ok summaries ->
  (forall section,
      In section (keys summaries)
      <-> exists content, In (section, content) sections /\ strip content <> [])
  /\ incl (keys summaries) (keys sections)
  /\ (forall section,
        (forall content, In (section, content) sections -> strip content = []) ->
        dict_get summaries section = None).
Proof.
  intros Hrun.
  assert (Hkeys : forall section,
             In section (keys summaries)
             <-> exists content, In (section, content) sections /\ strip content <> []).
  { intros section.
    rewrite (summarize_loop_keys _ _ _ _ _ sections [] summaries Hrun section).
    simpl. tauto. }
  split; [exact Hkeys|]. split.
  - intros section Hin. apply Hkeys in Hin as [content [Hin _]].
    apply in_map_iff. now exists (section, content).
  - intros section Hblank. apply dict_get_none. intros Hin.
    apply Hkeys in Hin as [content [Hin Hne]]. apply Hne. now apply Hblank.
Qed.

(** C9: the strategy table sends Methods and Results to
    [extractive_summary] and Introduction, Discussion and Conclusion to
    [abstractive_summary]; any section name outside the table, Title and
    Abstract among them, gets [extractive_summary]; and the summary stored for
    a non-blank section is what the method so chosen returns on the section's
    content, with the method's default arguments. *)
Theorem strategy_dispatch :
  map strategy_for
      (map py ["Methods"; "Results"; "Introduction"; "Discussion"; "Conclusion"]%string)
  = [extractive; extractive; abstractive; abstractive; abstractive]
  /\ keys summarization_strategy
     = map py ["Methods"; "Results"; "Introduction"; "Discussion"; "Conclusion"]%string
  /\ (forall section,
        ~ In section (keys summarization_strategy) -> strategy_for section = extractive)
  /\ strategy_for (py "Title") = extractive
  /\ strategy_for (py "Abstract") = extractive
  /\ (forall section content,
        strip content <> [] ->
        summarize [(section, content)]
        = (summary <- run (strategy_for section) content ;; Ok [(section, summary)]))
  /\ (forall section content,
        In section (map py ["Methods"; "Results"; "Title"; "Abstract"]%string)
        \/ ~ In section (keys summarization_strategy) ->
        run (strategy_for section) content
        = extractive_summary nlp_sents tfidf_row_sums content 3)
  /\ (forall section content,
        In section (map py ["Introduction"; "Discussion"; "Conclusion"]%string) ->
        run (strategy_for section) content
        = abstractive_summary bart_encode bart_generate bart_decode content 150 50)
  /\ (forall section content,
        strip content <> [] ->
        In section (map py ["Methods"; "Results"; "Title"; "Abstract"]%string)
        \/ ~ In section (keys summarization_strategy) ->
        summarize [(section, content)]
        = (summary <- extractive_summary nlp_sents tfidf_row_sums content 3 ;;
           Ok [(section, summary)]))
  /\ (forall section content,
        strip content <> [] ->
        In section (map py ["Introduction"; "Discussion"; "Conclusion"]%string) ->
        summarize [(section, content)]
        = (summary <-
             abstractive_summary bart_encode bart_generate bart_decode content 150 50 ;;
           Ok [(section, summary)])).
Proof.
  assert (Hdefault : forall section,
             ~ In section (keys summarization_strategy) ->
             strategy_for section = extractive).
  { intros section Hnot. unfold strategy_for.
    apply dict_get_none in Hnot. now rewrite Hnot. }
  assert (Hstep : forall section content,
             strip content <> [] ->
             summarize [(section, content)]
             = (summary <- run (strategy_for section) content ;;
                Ok [(section, summary)])).
  { intros section content Hne. unfold summarize_sections.
    rewrite summarize_loop_step by exact Hne. reflexivity. }
  assert (Hextractive : forall section content,
             In section (map py ["Methods"; "Results"; "Title"; "Abstract"]%string)
             \/ ~ In section (keys summarization_strategy) ->
             run (strategy_for section) content
             = extractive_summary nlp_sents tfidf_row_sums content 3).
  { intros section content [Hin|Hnot].
    - destruct Hin as [<-|[<-|[<-|[<-|[]]]]]; reflexivity.
    - now rewrite (Hdefault section Hnot). }
  assert (Habstractive : forall section content,
             In section (map py ["Introduction"; "Discussion"; "Conclusion"]%string) ->
             run (strategy_for section) content
             = abstractive_summary bart_encode bart_generate bart_decode content 150 50).
  { intros section content Hin.
    destruct Hin as [<-|[<-|[<-|[]]]]; reflexivity. }
  repeat (split; [first [reflexivity | assumption]|]).
  split.
  - intros section content Hne Hin.
    now rewrite (Hstep section content Hne), (Hextractive section content Hin).
  - intros section content Hne Hin.
    now rewrite (Hstep section content Hne), (Habstractive section content Hin).
Qed.
End SummarizerStatements.


Lemma summary_only_for_nonblank_sections_witness :
  (forall section,
      In section (map py ["Title"; "Methods"; "Results"]%string)
      <-> exists content, In (section, content) mixed_sections /\ strip content <> [])
  /\ incl (map py ["Title"; "Methods"; "Results"]%string) (keys mixed_sections)
  /\ (forall section,
        (forall content, In (section, content) mixed_sections -> strip content = []) ->
        dict_get [ (py "Title", py "A paper title.");
                   (py "Methods", py "It is good.");
                   (py "Results", py "Accuracy improved.") ] section = None).
Proof.
  apply (summary_only_for_nonblank_sections simple_sent_tokenize count_row_sums
           echo_encode echo_generate echo_decode mixed_sections
           [ (py "Title", py "A paper title.");
             (py "Methods", py "It is good.");
             (py "Results", py "Accuracy improved.") ]).
  vm_compute. reflexivity.
Defined.

(* ================================================================== *)
(** ** Trimming and deleting *)
(* ================================================================== *)

Lemma subsequence_nil_l {A} (l : list A) : subsequence [] l.
Proof. induction l; [constructor | now apply subsequence_skip]. Qed.

Lemma subsequence_refl {A} (l : list A) : subsequence l l.
Proof. induction l; [constructor | now apply subsequence_keep]. Qed.

Lemma subsequence_trans {A} (l1 l2 l3 : list A) :
  subsequence l1 l2 -> subsequence l2 l3 -> subsequence l1 l3.
Proof.
  intros H12 H23. revert l1 H12.
  induction H23 as [|x l2 l3 H23 IH|x l2 l3 H23 IH]; intros l1 H12.
  - exact H12.
  - constructor. now apply IH.
  - inversion H12; subst.
    + apply subsequence_skip. now apply IH.
    + apply subsequence_keep. now apply IH.
Qed.

Lemma subsequence_app {A} (l1 l1' l2 l2' : list A) :
  subsequence l1 l1' -> subsequence l2 l2' -> subsequence (l1 ++ l2) (l1' ++ l2').
Proof.
  induction 1; intros H2; simpl.
  - exact H2.
  - apply subsequence_skip. auto.
  - apply subsequence_keep. auto.
Qed.

Lemma subsequence_filter {A} (f : A -> bool) (l1 l2 : list A) :
  subsequence l1 l2 -> subsequence (filter f l1) (filter f l2).
Proof.
  induction 1; simpl.
  - constructor.
  - destruct (f x); [apply subsequence_skip|]; assumption.
  - destruct (f x); [apply subsequence_keep|]; assumption.
Qed.

Lemma lstrip_split (s : str) :
  exists pre, s = pre ++ lstrip s /\ forallb is_space pre = true.
Proof.
  induction s as [|c s [pre [E Hpre]]]; simpl.
  - now exists [].
  - destruct (is_space c) eqn:Hc.
    + exists (c :: pre). simpl. rewrite Hc, Hpre. split; [now f_equal|reflexivity].
    + now exists [].
Qed.

Lemma lstrip_head (s : str) c t : lstrip s = c :: t -> is_space c = false.
Proof.
  induction s as [|x s IH]; simpl; [discriminate|].
  destruct (is_space x) eqn:Hx; [exact IH|].
  intros [= <- _]. exact Hx.
Qed.

Lemma lstrip_fixed c t : is_space c = false -> lstrip (c :: t) = c :: t.
Proof. intros H. simpl. now rewrite H. Qed.

Lemma rstrip_split (s : str) :
  exists post, s = rstrip s ++ post /\ forallb is_space post = true.
Proof.
  unfold rstrip. destruct (lstrip_split (rev s)) as [pre [E Hpre]].
  exists (rev pre). split.
  - rewrite <- rev_app_distr, <- E. now rewrite rev_involutive.
  - rewrite forallb_forall in *. intros c Hc. apply Hpre. now apply in_rev.
Qed.

Lemma rstrip_last (s : str) front c : rstrip s = front ++ [c] -> is_space c = false.
Proof.
  unfold rstrip. intros H.
  apply (f_equal (@rev N)) in H. rewrite rev_involutive, rev_app_distr in H.
  simpl in H. now apply lstrip_head in H.
Qed.

Lemma rstrip_fixed front c : is_space c = false -> rstrip (front ++ [c]) = front ++ [c].
Proof.
  intros H. unfold rstrip. rewrite rev_app_distr. simpl. rewrite H.
  simpl. now rewrite rev_involutive.
Qed.

Lemma strip_split (s : str) :
  exists pre post,
    s = pre ++ strip s ++ post
    /\ forallb is_space pre = true /\ forallb is_space post = true.
Proof.
  unfold strip. destruct (lstrip_split s) as [pre [E Hpre]].
  destruct (rstrip_split (lstrip s)) as [post [E' Hpost]].
  exists pre, post. split; [|tauto]. now rewrite <- E'.
Qed.

Lemma strip_head (s : str) c t : strip s = c :: t -> is_space c = false.
Proof.
  unfold strip. intros H.
  destruct (rstrip_split (lstrip s)) as [post [E _]].
  rewrite H in E. simpl in E. now apply lstrip_head in E.
Qed.

Lemma strip_last (s : str) front c : strip s = front ++ [c] -> is_space c = false.
Proof. unfold strip. apply rstrip_last. Qed.

Lemma strip_idempotent (s : str) : strip (strip s) = strip s.
Proof.
  destruct (strip s) as [|c t] eqn:E; [reflexivity|].
  assert (Hne : c :: t <> []) by discriminate.
  destruct (exists_last Hne) as [front [c' E']].
  unfold strip at 1. rewrite (lstrip_fixed c t (strip_head s c t E)).
  rewrite E'. apply rstrip_fixed. apply (strip_last s front c'). congruence.
Qed.

Lemma strip_subsequence (s : str) : subsequence (strip s) s.
Proof.
  destruct (strip_split s) as [pre [post [E _]]].
  remember (strip s) as u eqn:Hu. clear Hu. subst s.
  apply (subsequence_app [] pre u (u ++ post)); [apply subsequence_nil_l|].
  rewrite <- (app_nil_r u) at 1.
  apply subsequence_app; [apply subsequence_refl | apply subsequence_nil_l].
Qed.

Lemma sub_from_subsequence (r : regex) (s : str) : forall skip,
  subsequence (sub_from r skip s) s.
Proof.
  induction s as [|c s IH]; intros skip; simpl; [constructor|].
  destruct skip as [|skip]; [|apply subsequence_skip; apply IH].
  destruct (match_regex r (c :: s)) as [[|n]|];
    [apply subsequence_keep | apply subsequence_skip | apply subsequence_keep];
    apply IH.
Qed.

Lemma re_sub_subsequence (r : regex) (s : str) : subsequence (re_sub r s) s.
Proof. apply sub_from_subsequence. Qed.

(** X1: the cleaner only deletes.  The cleaned text is the input with some
    characters left out: nothing is inserted, replaced or moved. *)
Theorem clean_text_only_deletes (unicode_decimal : N -> bool) (text : str) :
  subsequence (clean_text unicode_decimal text) text.
Proof.
  unfold clean_text. cbv zeta.
  eapply subsequence_trans; [apply strip_subsequence|].
  repeat (eapply subsequence_trans; [apply re_sub_subsequence|]).
  apply subsequence_refl.
Qed.

(** X2: the cleaned text is trimmed: it neither starts nor ends with a
    whitespace character, and trimming it again changes nothing. *)
Theorem clean_text_trimmed (unicode_decimal : N -> bool) (text : str) :
  let cleaned := clean_text unicode_decimal text in
  strip cleaned = cleaned
  /\ (forall c rest, cleaned = c :: rest -> is_space c = false)
  /\ (forall front c, cleaned = front ++ [c] -> is_space c = false).
Proof.
  unfold clean_text. cbv zeta.
  split; [apply strip_idempotent|]. split.
  - intros c rest. apply strip_head.
  - intros front c. apply strip_last.
Qed.

(* ================================================================== *)
(** ** Patterns that need a character the text does not have *)
(* ================================================================== *)

Section Needs.
Variable cls : N -> bool.

(** No character of [s] is of class [cls]. *)
Local Abbreviation lacks s := (forall c, In c s -> cls c = false).

Lemma match_exactly_lacks n cls' k s :
  (forall t, lacks t -> k t = None) -> lacks s ->
  match_exactly n cls' k s = None.
Proof.
  intros Hk. revert s. induction n as [|n IH]; intros s Hs; simpl.
  - now apply Hk.
  - destruct s as [|c s]; [reflexivity|].
    destruct (cls' c); [|reflexivity].
    rewrite IH; [reflexivity|]. intros x Hx. apply Hs. now right.
Qed.

Lemma match_greedy_lacks cls' k s :
  (forall t, lacks t -> k t = None) -> lacks s ->
  match_greedy cls' k s = None.
Proof.
  intros Hk. induction s as [|c s IH]; intros Hs; simpl.
  - now apply Hk.
  - destruct (cls' c); [|now apply Hk].
    rewrite IH by (intros x Hx; apply Hs; now right). now apply Hk.
Qed.

Lemma match_lazy_lacks cls' k s :
  (forall t, lacks t -> k t = None) -> lacks s ->
  match_lazy cls' k s = None.
Proof.
  intros Hk. induction s as [|c s IH]; intros Hs; simpl.
  - now rewrite Hk.
  - rewrite (Hk (c :: s) Hs). destruct (cls' c); [|reflexivity].
    now rewrite IH by (intros x Hx; apply Hs; now right).
Qed.

Lemma match_exactly_needed n k s :
  1 <= n -> lacks s -> match_exactly n cls k s = None.
Proof.
  intros Hn Hs. destruct n as [|n]; [lia|]. simpl.
  destruct s as [|c s]; [reflexivity|].
  now rewrite (Hs c (or_introl eq_refl)).
Qed.

Lemma match_branch_lacks b :
  Exists (needs cls) b -> forall s, lacks s -> match_branch b s = None.
Proof.
  induction 1 as [[cls' q] b [Hcls Hmin]|[cls' q] b Hb IH]; intros s Hs;
    cbn [match_branch].
  - simpl in Hcls, Hmin. subst cls'.
    destruct q; simpl in Hmin; now apply match_exactly_needed.
  - destruct q.
    + now apply match_exactly_lacks.
    + apply match_exactly_lacks; [|exact Hs].
      intros t Ht. now apply match_greedy_lacks.
    + apply match_exactly_lacks; [|exact Hs].
      intros t Ht. now apply match_lazy_lacks.
Qed.

Lemma match_regex_lacks r :
  Forall (Exists (needs cls)) r -> forall s, lacks s -> match_regex r s = None.
Proof.
  induction 1 as [|b r Hb _ IH]; intros s Hs; simpl; [reflexivity|].
  rewrite (match_branch_lacks b Hb s Hs). now apply IH.
Qed.

Lemma re_sub_lacks r s :
  Forall (Exists (needs cls)) r -> lacks s -> re_sub r s = s.
Proof.
  intros Hr. unfold re_sub. induction s as [|c s IH]; intros Hs; [reflexivity|].
  cbn [sub_from]. rewrite (match_regex_lacks r Hr (c :: s) Hs).
  f_equal. apply IH. intros x Hx. apply Hs. now right.
Qed.
End Needs.

Ltac find_needed :=
  repeat first
    [ apply Exists_cons_hd; split; [reflexivity | simpl; lia]
    | apply Exists_cons_tl ].

Lemma notebook_patterns_need_a_digit (unicode_decimal : N -> bool) :
  Forall (Forall (Exists (needs (digit unicode_decimal))))
    [ journal_metadata unicode_decimal;
      volume_issue unicode_decimal;
      iso_number unicode_decimal;
      bracket_citation unicode_decimal;
      year_citation unicode_decimal;
      figure_or_table unicode_decimal ].
Proof.
  repeat (apply Forall_cons || apply Forall_nil);
    cbv [lit lit_i map py app]; find_needed.
Qed.



Example clean_text_digit_free_text :
  clean_text (fun _ => false) digit_free_text = py "Ridge patterns (see above) are unique!".
Proof. vm_compute. reflexivity. Qed.

(* ================================================================== *)
(** ** The extractor *)
(* ================================================================== *)

Lemma match_greedy_spaces (s : str) :
  match_greedy is_space (fun _ => Some 0) s = Some (leading_spaces s).
Proof.
  induction s as [|c s IH]; simpl; [reflexivity|].
  destruct (is_space c); [now rewrite IH | reflexivity].
Qed.

Lemma match_whitespace_run (c : N) (s : str) :
  match_regex whitespace_run (c :: s)
  = if is_space c then Some (S (leading_spaces s)) else None.
Proof.
  unfold whitespace_run, plus. cbn [match_regex match_branch match_exactly].
  destruct (is_space c); [|reflexivity].
  change (match_branch []) with (fun _ : str => Some 0).
  now rewrite match_greedy_spaces.
Qed.

Lemma sub_with_collapse (s : str) :
  sub_with whitespace_run space 0 s = collapse false s
  /\ sub_with whitespace_run space (leading_spaces s) s = collapse true s.
Proof.
  induction s as [|c s [IH0 IHrun]]; [split; reflexivity|].
  cbn [sub_with leading_spaces collapse]. rewrite match_whitespace_run.
  destruct (is_space c).
  - rewrite IHrun. split; reflexivity.
  - rewrite IH0. split; reflexivity.
Qed.

Lemma collapse_spaces in_run (s : str) c :
  In c (collapse in_run s) -> is_space c = true -> c = 32%N.
Proof.
  revert in_run. induction s as [|x s IH]; intros in_run; simpl; [tauto|].
  destruct (is_space x) eqn:Hx.
  - destruct in_run; [apply IH|].
    intros [<-|H] Hc; [reflexivity | exact (IH _ H Hc)].
  - intros [<-|H] Hc; [congruence | exact (IH _ H Hc)].
Qed.

Lemma collapse_in_run_head (s : str) b back :
  collapse true s = b :: back -> is_space b = false.
Proof.
  induction s as [|x s IH]; simpl; [discriminate|].
  destruct (is_space x) eqn:Hx; [exact IH|].
  intros [= <- _]. exact Hx.
Qed.

Lemma collapse_no_double in_run (s : str) : forall front a b back,
  collapse in_run s = front ++ a :: b :: back ->
  is_space a = true -> is_space b = false.
Proof.
  revert in_run. induction s as [|x s IH]; intros in_run front a b back; simpl.
  - destruct front; discriminate.
  - destruct (is_space x) eqn:Hx.
    + destruct in_run; [apply IH|].
      destruct front as [|y front]; simpl.
      * intros [= <- H] _. now apply collapse_in_run_head in H.
      * intros [= _ H]. exact (IH _ _ _ _ _ H).
    + destruct front as [|y front]; simpl.
      * intros [= <- _] Ha. congruence.
      * intros [= _ H]. exact (IH _ _ _ _ _ H).
Qed.

Lemma filter_visible_spaces (l : str) :
  forallb is_space l = true -> filter visible l = [].
Proof.
  induction l as [|c l IH]; simpl; [reflexivity|].
  intros H. apply andb_true_iff in H as [Hc Hl].
  unfold visible at 1. rewrite Hc. simpl. now apply IH.
Qed.

Lemma filter_visible_strip (s : str) : filter visible (strip s) = filter visible s.
Proof.
  destruct (strip_split s) as [pre [post [E [Hpre Hpost]]]].
  rewrite E at 2. rewrite !filter_app.
  rewrite (filter_visible_spaces pre Hpre), (filter_visible_spaces post Hpost).
  now rewrite app_nil_r.
Qed.

Lemma filter_visible_collapse in_run (s : str) :
  filter visible (collapse in_run s) = filter visible s.
Proof.
  revert in_run. induction s as [|c s IH]; intros in_run; simpl; [reflexivity|].
  unfold visible at 2. destruct (is_space c) eqn:Hc; simpl.
  - destruct in_run; simpl; apply IH.
  - unfold visible at 1. rewrite Hc. simpl. now rewrite IH.
Qed.

Section ExtractorFacts.
Variable fitz_page_texts : str -> result (list str).
Variable unicode_decimal : N -> bool.

Local Abbreviation extract := (extract_text_from_pdf fitz_page_texts unicode_decimal).
Local Abbreviation loop := (pages_loop unicode_decimal).

Lemma extract_text_from_pdf_collapse pdf_path pages :
  fitz_page_texts pdf_path = Ok pages ->
  extract pdf_path = Ok (strip (collapse false (loop pages []))).
Proof.
  intros H. unfold extract_text_from_pdf. rewrite H. cbn [bind].
  unfold re_sub_with. now rewrite (proj1 (sub_with_collapse _)).
Qed.

Lemma pages_loop_visible pages : forall text,
  subsequence (filter visible (loop pages text))
              (filter visible (text ++ concat pages)).
Proof.
  induction pages as [|page rest IH]; intros text; cbn [pages_loop concat].
  - rewrite app_nil_r. apply subsequence_refl.
  - eapply subsequence_trans; [apply IH|].
    rewrite <- !app_assoc, !filter_app.
    apply subsequence_app; [apply subsequence_refl|].
    apply subsequence_app.
    + apply subsequence_filter.
      eapply subsequence_trans; apply re_sub_subsequence.
    + change (filter visible newline) with (@nil N). apply subsequence_refl.
Qed.

(** X4: the extracted text has its whitespace normalised.  Every whitespace
    character in it is a plain space (no newline, tab or Unicode separator
    from the pages survives), no two of them are adjacent, and the text
    neither starts nor ends with one. *)
Theorem extract_text_from_pdf_single_spaced (pdf_path : str) (text : str) :
  extract pdf_path = Ok text ->
  (forall c, In c text -> is_space c = true -> c = 32%N)
  /\ (forall front a b back,
        text = front ++ a :: b :: back -> is_space a = true -> is_space b = false)
  /\ (forall c rest, text = c :: rest -> is_space c = false)
  /\ (forall front c, text = front ++ [c] -> is_space c = false).
Proof.
  unfold extract_text_from_pdf.
  destruct (fitz_page_texts pdf_path) as [pages|e]; [|discriminate].
  cbn [bind]. unfold re_sub_with. rewrite (proj1 (sub_with_collapse _)).
  intros [= <-].
  set (collapsed := collapse false (loop pages [])).
  destruct (strip_split collapsed) as [pre [post [E _]]].
  split; [|split; [|split]].
  - intros c Hc. apply (collapse_spaces false (loop pages [])).
    fold collapsed. rewrite E. apply in_or_app. right. apply in_or_app. now left.
  - intros front a b back Ht.
    apply (collapse_no_double false (loop pages []) (pre ++ front) a b (back ++ post)).
    fold collapsed. rewrite E at 1. rewrite Ht. now rewrite <- !app_assoc.
  - intros c rest. apply strip_head.
  - intros front c. apply strip_last.
Qed.

(** X5: the extractor invents nothing and moves nothing: the characters of
    the extracted text that are not whitespace are characters of the pages,
    in page order and in their order on the page. *)
Theorem extract_text_from_pdf_keeps_order (pdf_path : str) (pages : list str) :
  fitz_page_texts pdf_path = Ok pages ->
  exists text,
    extract pdf_path = Ok text
    /\ subsequence (filter visible text) (filter visible (concat pages)).
Proof.
  intros H. eexists. split; [exact (extract_text_from_pdf_collapse pdf_path pages H)|].
  rewrite filter_visible_strip, filter_visible_collapse.
  apply (pages_loop_visible pages []).
Qed.
End ExtractorFacts.

Lemma extract_text_from_pdf_single_spaced_witness :
  let text := py "Fingerprints are unique. Results improve accuracy." in
  (forall c, In c text -> is_space c = true -> c = 32%N)
  /\ (forall front a b back,
        text = front ++ a :: b :: back -> is_space a = true -> is_space b = false)
  /\ (forall c rest, text = c :: rest -> is_space c = false)
  /\ (forall front c, text = front ++ [c] -> is_space c = false).
Proof.
  apply (extract_text_from_pdf_single_spaced demo_pages (fun _ => false) (py "paper.pdf")).
  vm_compute. reflexivity.
Defined.

Lemma extract_text_from_pdf_keeps_order_witness :
  exists text,
    extract_text_from_pdf demo_pages (fun _ => false) (py "paper.pdf") = Ok text
    /\ subsequence (filter visible text)
         (filter visible
            (concat [ [32; 32; 70; 105; 110; 103; 101; 114; 112; 114; 105; 110; 116; 115; 9; 10;
                       97; 114; 101; 32; 117; 110; 105; 113; 117; 101; 46; 32; 70; 105; 103; 32; 50; 10]%N;
                      py "Results  improve   accuracy. References" ])).
Proof.
  apply (extract_text_from_pdf_keeps_order demo_pages (fun _ => false) (py "paper.pdf")).
  vm_compute. reflexivity.
Defined.

(* ================================================================== *)
(** ** The segmenter, sentence by sentence *)
(* ================================================================== *)

Lemma segment_loop_app l1 l2 st :
  segment_loop (l1 ++ l2) st = (st' <- segment_loop l1 st ;; segment_loop l2 st').
Proof.
  revert st. induction l1 as [|sentence l1 IH]; intros st; [reflexivity|].
  cbn [app segment_loop]. destruct (segment_step st sentence); cbn [bind]; auto.
Qed.

Lemma firstn_S_nth {A} (l : list A) : forall n x,
  nth_error l n = Some x -> firstn (S n) l = firstn n l ++ [x].
Proof.
  induction l as [|a l IH]; intros [|n] x H; simpl in *; try discriminate.
  - now injection H as ->.
  - f_equal. now apply IH.
Qed.

Lemma firstn_plus {A} (l : list A) n k :
  firstn (n + k) l = firstn n l ++ firstn k (skipn n l).
Proof.
  revert l. induction n as [|n IH]; intros l; [reflexivity|].
  destruct l as [|a l]; simpl.
  - now rewrite firstn_nil.
  - f_equal. apply IH.
Qed.

Lemma cursor_trace_last_in sentences : forall cursor,
  In cursor section_order ->
  In (last (cursor_trace sentences cursor) cursor) section_order.
Proof.
  induction sentences as [|sentence rest IH]; intros cursor Hin; [exact Hin|].
  cbn [cursor_trace]. rewrite last_cons. apply IH.
  destruct (detect_section_in section_headers sentence cursor) as [<-|H]; auto.
Qed.

Lemma bucket_app section l1 l2 cursor :
  bucket section (l1 ++ l2) cursor
  = bucket section l1 cursor
    ++ bucket section l2 (last (cursor_trace l1 cursor) cursor).
Proof.
  revert cursor. induction l1 as [|sentence l1 IH]; intros cursor; [reflexivity|].
  cbn [app bucket cursor_trace]. rewrite last_cons, IH.
  now destruct (str_eqb _ section).
Qed.

(** The state after any list of sentences, from the initial state. *)
Lemma segment_loop_initial sentences :
  segment_loop sentences initial_state
  = Ok (SegState (last (cursor_trace sentences (py "Title")) (py "Title"))
          (map (fun section =>
                  (section, accumulate (bucket section sentences (py "Title"))))
             section_order)).
Proof.
  unfold initial_state. rewrite segment_loop_spec.
  - reflexivity.
  - unfold keys. rewrite map_map. apply section_order_NoDup.
  - unfold keys. rewrite map_map. simpl. tauto.
  - unfold keys. rewrite map_map. apply incl_refl.
Qed.

Lemma keys_tabulate {V} (f : str -> V) (ks : list str) :
  keys (map (fun section => (section, f section)) ks) = ks.
Proof. unfold keys. rewrite map_map. apply map_id. Qed.

(** X6: the cursor is sticky.  A sentence with no section keyword goes to the
    section of the sentence before it (Title for the first sentence): the
    cursor does not move, and the sentence followed by a space is appended to
    that section's value, the other values staying as they were. *)
Theorem keywordless_sentence_follows_cursor
    (sent_tokenize : str -> list str) (text sentence : str) (n : nat) :
  nth_error (sent_tokenize text) n = Some sentence ->
  no_keyword sentence ->
  exists cursor d,
    cursor_after sent_tokenize n text = Ok cursor
    /\ cursor_after sent_tokenize (S n) text = Ok cursor
    /\ sections_after sent_tokenize n text = Ok d
    /\ sections_after sent_tokenize (S n) text
       = Ok (append_at cursor (sentence ++ space) d).
Proof.
  intros Hnth Hplain.
  unfold cursor_after, sections_after.
  rewrite (firstn_S_nth _ _ _ Hnth), segment_loop_app, segment_loop_initial.
  set (prefix := firstn n (sent_tokenize text)).
  set (cursor := last (cursor_trace prefix (py "Title")) (py "Title")).
  set (d := map (fun section =>
                   (section, accumulate (bucket section prefix (py "Title"))))
              section_order).
  assert (Hcur : In cursor section_order).
  { apply cursor_trace_last_in. simpl. tauto. }
  assert (Hstep : segment_loop [sentence] (SegState cursor d)
                  = Ok (SegState cursor (append_at cursor (sentence ++ space) d))).
  { cbn [segment_loop]. rewrite segment_step_spec.
    - cbn [current_section sections bind].
      now rewrite (detect_section_unmatched section_headers sentence cursor Hplain).
    - cbn [sections]. unfold d. rewrite keys_tabulate. apply section_order_NoDup.
    - cbn [sections current_section]. unfold d. now rewrite keys_tabulate.
    - cbn [sections]. unfold d. rewrite keys_tabulate. apply incl_refl. }
  exists cursor, d. cbn [bind]. rewrite Hstep. cbn [bind current_section sections].
  repeat split; reflexivity.
Qed.

Lemma keywordless_sentence_follows_cursor_witness :
  exists cursor d,
    cursor_after simple_sent_tokenize 1 example_text = Ok cursor
    /\ cursor_after simple_sent_tokenize 2 example_text = Ok cursor
    /\ sections_after simple_sent_tokenize 1 example_text = Ok d
    /\ sections_after simple_sent_tokenize 2 example_text
       = Ok (append_at cursor (py "We used X." ++ space) d).
Proof.
  apply (keywordless_sentence_follows_cursor simple_sent_tokenize example_text
           (py "We used X.") 1).
  - vm_compute. reflexivity.
  - intros entry Hentry.
    repeat (destruct Hentry as [<-|Hentry]; [vm_compute; reflexivity|]).
    destruct Hentry.
Defined.

(** X7: the segmenter only appends.  The section map after the first [n + k]
    sentences has the same seven keys as the map after the first [n], and each
    of its values starts with the value it had then. *)
Theorem sections_grow_by_appending
    (sent_tokenize : str -> list str) (text : str) (n k : nat) :
  exists d1 d2,
    sections_after sent_tokenize n text = Ok d1
    /\ sections_after sent_tokenize (n + k) text = Ok d2
    /\ keys d1 = section_order
    /\ keys d2 = section_order
    /\ (forall section content,
          dict_get d1 section = Some content ->
          exists more, dict_get d2 section = Some (content ++ more)).
Proof.
  unfold sections_after. rewrite !segment_loop_initial. cbn [bind sections].
  do 2 eexists. split; [reflexivity|]. split; [reflexivity|].
  split; [apply keys_tabulate|]. split; [apply keys_tabulate|].
  intros section content Hget.
  assert (Hin : In section section_order).
  { apply dict_get_some in Hget. apply in_map_iff in Hget as [k' [E Hin]].
    now injection E as -> _. }
  rewrite (dict_get_tabulate
             (fun s => accumulate (bucket s (firstn n (sent_tokenize text)) (py "Title"))))
    in Hget by exact Hin.
  injection Hget as <-.
  rewrite (dict_get_tabulate
             (fun s => accumulate (bucket s (firstn (n + k) (sent_tokenize text)) (py "Title"))))
    by exact Hin.
  rewrite firstn_plus, bucket_app, accumulate_app. eexists. reflexivity.
Qed.

(* ================================================================== *)
(** ** The extractive summary: any length, any number of sentences *)
(* ================================================================== *)

Lemma seq_strictly_sorted n : forall a, StronglySorted lt (seq a n).
Proof.
  induction n as [|n IH]; intros a; simpl; constructor; [apply IH|].
  apply Forall_forall. intros x Hx. apply in_seq in Hx. lia.
Qed.

Lemma strictly_sorted_unique (l1 : list nat) : forall l2,
  StronglySorted lt l1 -> StronglySorted lt l2 -> Permutation l1 l2 -> l1 = l2.
Proof.
  induction l1 as [|a l1 IH]; intros l2 H1 H2 Hperm.
  - apply Permutation_nil in Hperm. now subst.
  - destruct l2 as [|b l2].
    + apply Permutation_sym, Permutation_nil in Hperm. discriminate.
    + apply StronglySorted_inv in H1 as [H1 Ha].
      apply StronglySorted_inv in H2 as [H2 Hb].
      rewrite Forall_forall in Ha, Hb.
      assert (a = b).
      { assert (Hab : In a (b :: l2)) by (apply (Permutation_in _ Hperm); now left).
        assert (Hba : In b (a :: l1))
          by (apply (Permutation_in _ (Permutation_sym Hperm)); now left).
        destruct Hab as [->|Hab]; [reflexivity|].
        destruct Hba as [->|Hba]; [reflexivity|].
        specialize (Ha b Hba). specialize (Hb a Hab). lia. }
      subst b. f_equal. apply IH; try assumption.
      now apply Permutation_cons_inv in Hperm.
Qed.

Lemma map_nth_seq_all {A} (d : A) (l : list A) :
  map (fun i => nth i l d) (seq 0 (length l)) = l.
Proof.
  induction l as [|a l IH]; [reflexivity|].
  cbn [length seq map nth]. f_equal.
  rewrite <- seq_shift, map_map. exact IH.
Qed.

Section Selection.
Variable nlp_sents : str -> list str.
Variable tfidf_row_sums : list str -> result (list Q).

(** What [extractive_summary] returns once the vectorizer has given one score
    per sentence: the sentences at the indices the slice keeps of the ranking,
    taken in increasing order of index. *)
Lemma extractive_summary_selected (text : str) (scores : list Q) (max_sentences : Z) :
  let sentences := nlp_sents text in
  let kept := slice_stop max_sentences (length sentences) in
  let selected := sorted Nat.ltb (firstn kept (ranked scores)) in
  tfidf_row_sums sentences = Ok scores ->
  length scores = length sentences ->
  extractive_summary nlp_sents tfidf_row_sums text max_sentences
  = Ok (join space (map (fun i => nth i sentences []) selected))
  /\ Permutation selected (firstn kept (ranked scores))
  /\ StronglySorted lt selected
  /\ Forall (fun i => i < length sentences) selected.
Proof.
  intros sentences kept selected Hfit Hrows.
  set (top := firstn kept (ranked scores)) in *.
  assert (Hperm : Permutation selected top) by apply sorted_perm.
  assert (Hbound : Forall (fun i => i < length sentences) selected).
  { apply Forall_forall. intros i Hi.
    apply (Permutation_in _ Hperm) in Hi. apply in_firstn_in in Hi.
    apply ranked_in in Hi. lia. }
  split; [|split; [|split]]; try assumption.
  - unfold extractive_summary. cbv zeta. fold sentences. rewrite Hfit.
    cbn [bind]. unfold slice_to.
    rewrite (Permutation_length (ranked_perm scores)), length_seq, Hrows.
    fold kept. fold top. fold selected.
    rewrite (mapM_list_item sentences [] selected Hbound). reflexivity.
  - apply strongly_sorted_strict.
    + apply sorted_ordered.
      * intros a b H. apply Nat.ltb_lt in H. apply Nat.ltb_ge. lia.
      * unfold may_precede. intros a b c Hab Hbc.
        apply Nat.ltb_ge in Hab, Hbc. apply Nat.ltb_ge. lia.
    + apply (Permutation_NoDup (Permutation_sym Hperm)).
      apply (NoDup_app_remove_r top (skipn kept (ranked scores))).
      unfold top. rewrite firstn_skipn. apply ranked_NoDup.
Qed.
End Selection.

Section Stability.
Variable scores : list Q.

Local Abbreviation before := (ranks_before scores).

Lemma insert_ranks_before x l :
  StronglySorted before l -> Forall (fun y => x < y) l ->
  StronglySorted before (insert_sorted (outranks scores) x l).
Proof.
  induction 1 as [|y l Hl IH Hy]; intros Hx; simpl.
  - repeat constructor.
  - inversion Hx as [|? ? Hxy Hxl]; subst.
    destruct (outranks scores y x) eqn:E.
    + apply Qlt_bool_true_iff in E.
      constructor; [now apply IH|].
      apply Forall_forall. intros z Hz.
      apply (Permutation_in _ (insert_sorted_perm _ (outranks scores) x l)) in Hz.
      destruct Hz as [<-|Hz]; [now left|].
      rewrite Forall_forall in Hy. now apply Hy.
    + apply Qlt_bool_false_iff in E.
      assert (Hbelow : forall z, In z (y :: l) ->
                 (score scores z <= score scores x)%Q).
      { intros z [<-|Hz]; [exact E|].
        rewrite Forall_forall in Hy. specialize (Hy z Hz).
        apply Qle_trans with (score scores y); [|exact E].
        destruct Hy as [Hlt|[Heq _]]; [now apply Qlt_le_weak|].
        rewrite Heq. apply Qle_refl. }
      constructor; [now constructor|].
      apply Forall_forall. intros z Hz.
      assert (Hxz : x < z).
      { rewrite Forall_forall in Hxl. destruct Hz as [<-|Hz]; auto. }
      destruct (Qlt_le_dec (score scores z) (score scores x)) as [Hlt|Hge].
      * now left.
      * right. split; [|exact Hxz]. apply Qle_antisym; [exact Hge|now apply Hbelow].
Qed.

Lemma sorted_seq_ranks_before n : forall a,
  StronglySorted before (sorted (outranks scores) (seq a n)).
Proof.
  induction n as [|n IH]; intros a; [constructor|].
  cbn [seq sorted fold_right]. apply insert_ranks_before; [apply IH|].
  apply Forall_forall. intros y Hy.
  apply (Permutation_in _ (sorted_perm _ (outranks scores) (seq (S a) n))) in Hy.
  apply in_seq in Hy. lia.
Qed.

Lemma ranked_stable : StronglySorted before (ranked scores).
Proof. apply sorted_seq_ranks_before. Qed.

Lemma top_ranks_before_rest k i j :
  In i (firstn k (ranked scores)) -> j < length scores ->
  ~ In j (firstn k (ranked scores)) -> before i j.
Proof.
  intros Hi Hj Hnot.
  apply (strongly_sorted_app before (firstn k (ranked scores)) (skipn k (ranked scores))).
  - rewrite firstn_skipn. apply ranked_stable.
  - exact Hi.
  - apply ranked_in in Hj. rewrite <- (firstn_skipn k (ranked scores)) in Hj.
    apply in_app_or in Hj. tauto.
Qed.
End Stability.





Example extractive_summary_tied_text :
  extractive_summary simple_sent_tokenize count_row_sums tied_text 3
  = Ok (py "Ridge patterns vary. Sensors fail often. Noise blurs images.").
Proof. vm_compute. reflexivity. Qed.

(** With [max_sentences = -1] the slice drops the last index of the ranking:
    three of the four sentences are kept. *)
Example extractive_summary_negative_max_sentences :
  extractive_summary simple_sent_tokenize count_row_sums tied_text (-1)
  = Ok (py "Ridge patterns vary. Sensors fail often. Noise blurs images.").
Proof. vm_compute. reflexivity. Qed.

(* ================================================================== *)
(** ** [summarize_sections]: what a successful run returns *)
(* ================================================================== *)

Lemma is_blank_true (content : str) : is_blank content = true <-> strip content = [].
Proof. unfold is_blank. destruct (strip content); split; congruence. Qed.

Lemma is_blank_false (content : str) : is_blank content = false <-> strip content <> [].
Proof. unfold is_blank. destruct (strip content); split; congruence. Qed.

Lemma dict_set_fresh {V} (d : dict V) k v :
  ~ In k (keys d) -> dict_set d k v = d ++ [(k, v)].
Proof.
  unfold keys. induction d as [|[k' v'] d IH]; simpl; intros H; [reflexivity|].
  destruct (str_eqb k' k) eqn:E.
  - apply str_eqb_eq in E. tauto.
  - f_equal. apply IH. tauto.
Qed.

Lemma subsequence_map_filter {A B} (f : A -> B) (p : A -> bool) (l : list A) :
  subsequence (map f (filter p l)) (map f l).
Proof.
  induction l as [|a l IH]; simpl; [constructor|].
  destruct (p a); simpl; [now apply subsequence_keep | now apply subsequence_skip].
Qed.

Section SummarizeOutcome.
Variable nlp_sents : str -> list str.
Variable tfidf_row_sums : list str -> result (list Q).
Variable bart_encode : nat -> str -> result (list N).
Variable bart_generate : list N -> nat -> nat -> nat -> result (list (list N)).
Variable bart_decode : list N -> result str.

Local Abbreviation run :=
  (run_strategy nlp_sents tfidf_row_sums bart_encode bart_generate bart_decode).
Local Abbreviation loop :=
  (summarize_loop nlp_sents tfidf_row_sums bart_encode bart_generate bart_decode).
Local Abbreviation summarize :=
  (summarize_sections nlp_sents tfidf_row_sums bart_encode bart_generate bart_decode).

(** [out] is the summary entry of the section entry [entry]. *)
Local Abbreviation summary_of entry out :=
  (fst out = fst entry /\ run (strategy_for (fst entry)) (snd entry) = Ok (snd out)).

Lemma summarize_loop_outs items : forall summaries result,
  NoDup (keys summaries ++ keys items) ->
  loop items summaries = Ok result ->
  exists outs,
    result = summaries ++ outs
    /\ Forall2 (fun entry out => summary_of entry out) (nonblank_sections items) outs.
Proof.
  induction items as [|[section content] rest IH]; intros summaries result Hnd Hrun.
  - simpl in Hrun. injection Hrun as <-. exists []. rewrite app_nil_r.
    split; [reflexivity|constructor].
  - unfold nonblank_sections. cbn [filter snd]. fold (nonblank_sections rest).
    destruct (strip content) eqn:Hblank.
    + rewrite (proj2 (is_blank_true content) Hblank). cbn [negb].
      rewrite summarize_loop_blank in Hrun by exact Hblank.
      apply (IH summaries result); [|exact Hrun].
      cbn [keys map fst] in Hnd. now apply NoDup_remove_1 in Hnd.
    + assert (Hne : strip content <> []) by (rewrite Hblank; discriminate).
      rewrite (proj2 (is_blank_false content) Hne). cbn [negb].
      rewrite summarize_loop_step in Hrun by exact Hne.
      destruct (run (strategy_for section) content) as [summary|e] eqn:Hsum;
        [|discriminate].
      cbn [bind] in Hrun.
      cbn [keys map fst] in Hnd. fold (keys rest) in Hnd.
      assert (Hfresh : ~ In section (keys summaries)).
      { apply NoDup_remove_2 in Hnd. intros H. apply Hnd.
        apply in_or_app. now left. }
      rewrite (dict_set_fresh summaries section summary Hfresh) in Hrun.
      destruct (IH (summaries ++ [(section, summary)]) result) as [outs [E Hall]].
      * unfold keys in *. rewrite map_app, <- app_assoc. exact Hnd.
      * exact Hrun.
      * exists ((section, summary) :: outs). split.
        -- rewrite E, <- app_assoc. reflexivity.
        -- constructor; [split; [reflexivity|exact Hsum] | exact Hall].
Qed.

Lemma summarize_loop_nonblank items : forall summaries,
  loop items summaries = loop (nonblank_sections items) summaries.
Proof.
  induction items as [|[section content] rest IH]; intros summaries; [reflexivity|].
  unfold nonblank_sections. cbn [filter snd]. fold (nonblank_sections rest).
  destruct (strip content) eqn:Hblank.
  - rewrite (proj2 (is_blank_true content) Hblank). cbn [negb].
    rewrite summarize_loop_blank by exact Hblank. apply IH.
  - assert (Hne : strip content <> []) by (rewrite Hblank; discriminate).
    rewrite (proj2 (is_blank_false content) Hne). cbn [negb].
    rewrite !summarize_loop_step by exact Hne.
    destruct (run (strategy_for section) content); cbn [bind]; [apply IH|reflexivity].
Qed.

(** X10: what a successful run returns.  For a section map (distinct keys),
    the summary map lists the non-blank sections in the section map's order,
    each with the result of its own strategy on its own content. *)
Theorem summaries_follow_section_order (sections summaries : dict str) :
  NoDup (keys sections) ->
  summarize sections = Ok summaries ->
  keys summaries = keys (nonblank_sections sections)
  /\ Forall2 (fun entry out => summary_of entry out)
       (nonblank_sections sections) summaries.
Proof.
  intros Hnd Hrun.
  destruct (summarize_loop_outs sections [] summaries Hnd Hrun) as [outs [-> Hall]].
  cbn [app]. split; [|exact Hall].
  clear Hrun. induction Hall as [|entry out entries outs [Hk _] _ IH]; [reflexivity|].
  cbn [keys map]. f_equal; [exact Hk|exact IH].
Qed.

(** X11: blank sections have no influence.  Removing from the section map the
    sections whose content is empty or whitespace leaves the outcome of
    [summarize_sections] unchanged, be it a summary map or an exception. *)
Theorem summarize_sections_ignores_blank (sections : dict str) :
  summarize sections = summarize (nonblank_sections sections).
Proof. apply summarize_loop_nonblank. Qed.

(** X12: all or nothing.  [summarize_sections] returns a summary map exactly
    when the summarisation of every non-blank section succeeds. *)
Theorem summarize_sections_succeeds_iff (sections : dict str) :
  (exists summaries, summarize sections = Ok summaries)
  <-> (forall entry, In entry sections -> is_blank (snd entry) = false ->
         exists summary, run (strategy_for (fst entry)) (snd entry) = Ok summary).
Proof.
  split.
  - intros [summaries Hrun] [section content] Hin Hne.
    apply is_blank_false in Hne. cbn [fst snd] in *.
    destruct (run (strategy_for section) content) as [summary|e] eqn:Hsum;
      [now exists summary|].
    destruct (summarize_loop_fails nlp_sents tfidf_row_sums bart_encode bart_generate
                bart_decode sections section content e Hin Hne Hsum)
      as (before & failing & text & after & e' & -> & _ & _ & _ & Hl).
    unfold summarize_sections in Hrun. rewrite Hl in Hrun. discriminate.
  - intros Hall.
    apply summarize_loop_succeeds. intros entry Hin Hne.
    apply Hall; [exact Hin|]. now apply is_blank_false.
Qed.
End SummarizeOutcome.

Lemma mixed_sections_NoDup : NoDup (keys mixed_sections).
Proof.
  repeat (constructor; [simpl; intuition discriminate|]). constructor.
Qed.

Lemma summaries_follow_section_order_witness :
  let summaries := [ (py "Title", py "A paper title.");
                     (py "Methods", py "It is good.");
                     (py "Results", py "Accuracy improved.") ] in
  keys summaries = keys (nonblank_sections mixed_sections)
  /\ Forall2 (fun entry out =>
                fst out = fst entry
                /\ run_strategy simple_sent_tokenize count_row_sums echo_encode
                     echo_generate echo_decode (strategy_for (fst entry)) (snd entry)
                   = Ok (snd out))
       (nonblank_sections mixed_sections) summaries.
Proof.
  apply (summaries_follow_section_order simple_sent_tokenize count_row_sums
           echo_encode echo_generate echo_decode mixed_sections).
  - exact mixed_sections_NoDup.
  - vm_compute. reflexivity.
Defined.

(* ================================================================== *)
(** ** [process_research_paper] *)
(* ================================================================== *)

Section PipelineFacts.
Variable fitz_page_texts : str -> result (list str).
Variable unicode_decimal : N -> bool.
Variable sent_tokenize : str -> list str.
Variable load_models : result unit.
Variable nlp_sents : str -> list str.
Variable tfidf_row_sums : list str -> result (list Q).
Variable bart_encode : nat -> str -> result (list N).
Variable bart_generate : list N -> nat -> nat -> nat -> result (list (list N)).
Variable bart_decode : list N -> result str.

Local Abbreviation process :=
  (process_research_paper fitz_page_texts unicode_decimal sent_tokenize load_models
     nlp_sents tfidf_row_sums bart_encode bart_generate bart_decode).
Local Abbreviation extract := (extract_text_from_pdf fitz_page_texts unicode_decimal).

(** X13: what the whole pipeline returns.  The summaries are keyed by section
    names in the declared order (at most seven, a subsequence of Title,
    Abstract, Introduction, Methods, Results, Discussion, Conclusion), and a
    section has a summary only if the segmenter sent it at least one sentence
    of the cleaned text. *)
Theorem process_research_paper_summaries
    (pdf_path : str) (summaries : dict str) (printed : str) :
  process pdf_path = Ok (summaries, printed) ->
  exists raw_text,
    extract pdf_path = Ok raw_text
    /\ subsequence (keys summaries) section_order
    /\ (forall section, In section (keys summaries) ->
          bucket section (sent_tokenize (clean_text unicode_decimal raw_text))
            (py "Title") <> []).
Proof.
  unfold process_research_paper.
  destruct (extract pdf_path) as [raw_text|e]; [|discriminate].
  cbn [bind]. rewrite split_into_sections_spec. cbn [bind].
  destruct load_models as [loaded|e]; [|discriminate]. cbn [bind].
  set (cleaned := clean_text unicode_decimal raw_text).
  set (sections := map (fun section =>
                          (section, accumulate (bucket section (sent_tokenize cleaned)
                                                  (py "Title"))))
                     section_order).
  destruct (summarize_sections _ _ _ _ _ sections) as [outs|e] eqn:Hrun;
    [|discriminate].
  cbn [bind]. intros [= <- _].
  exists raw_text. split; [reflexivity|].
  assert (Hnd : NoDup (@keys str [] ++ keys sections)).
  { change (NoDup (keys sections)). unfold sections.
    rewrite keys_tabulate. apply section_order_NoDup. }
  destruct (summarize_loop_outs _ _ _ _ _ sections [] outs Hnd Hrun)
    as [outs' [-> Hall]]. cbn [app] in *.
  assert (Hkeys : keys outs' = keys (nonblank_sections sections)).
  { clear Hrun. induction Hall as [|entry out entries outs [Hk _] _ IH]; [reflexivity|].
    cbn [keys map]. f_equal; [exact Hk|exact IH]. }
  split.
  - rewrite Hkeys. unfold nonblank_sections, keys.
    replace section_order with (map fst sections)
      by (unfold sections; apply keys_tabulate).
    apply subsequence_map_filter.
  - intros section Hin Hempty. rewrite Hkeys in Hin.
    unfold nonblank_sections, keys in Hin.
    apply in_map_iff in Hin as [[k v] [Ek Hin]]. cbn [fst] in Ek. subst k.
    apply filter_In in Hin as [Hin Hne]. cbn [snd] in Hne.
    apply in_map_iff in Hin as [k [E _]]. injection E as -> <-.
    change (negb (is_blank (accumulate
              (bucket section (sent_tokenize (clean_text unicode_decimal raw_text))
                 (py "Title")))) = true) in Hne.
    rewrite Hempty in Hne. discriminate.
Qed.

(** X14: a document in which the tokenizer finds no sentence is no error.
    Once the text is extracted and the models are loaded, the pipeline returns
    the empty summary map and prints nothing, without calling a summarizer. *)
Theorem process_research_paper_without_sentences (pdf_path raw_text : str) :
  extract pdf_path = Ok raw_text ->
  sent_tokenize (clean_text unicode_decimal raw_text) = [] ->
  load_models = Ok tt ->
  process pdf_path = Ok ([], []).
Proof.
  intros Hraw Hnone Hload. unfold process_research_paper.
  rewrite Hraw. cbn [bind]. unfold split_into_sections.
  rewrite Hnone, Hload. reflexivity.
Qed.
End PipelineFacts.

Lemma process_research_paper_summaries_witness :
  let summaries := [ (py "Title", py "Fingerprints are unique.");
                     (py "Results", py "Results improve accuracy.") ] in
  exists raw_text,
    extract_text_from_pdf demo_pages (fun _ => false) (py "paper.pdf") = Ok raw_text
    /\ subsequence (keys summaries) section_order
    /\ (forall section, In section (keys summaries) ->
          bucket section (simple_sent_tokenize (clean_text (fun _ => false) raw_text))
            (py "Title") <> []).
Proof.
  apply (process_research_paper_summaries demo_pages (fun _ => false)
           simple_sent_tokenize (Ok tt) simple_sent_tokenize count_row_sums
           echo_encode echo_generate echo_decode (py "paper.pdf")
           [ (py "Title", py "Fingerprints are unique.");
             (py "Results", py "Results improve accuracy.") ]
           (report [ (py "Title", py "Fingerprints are unique.");
                     (py "Results", py "Results improve accuracy.") ])).
  vm_compute. reflexivity.
Defined.

Lemma process_research_paper_without_sentences_witness :
  process_research_paper empty_document (fun _ => false) simple_sent_tokenize (Ok tt)
    simple_sent_tokenize count_row_sums echo_encode echo_generate echo_decode
    (py "blank.pdf")
  = Ok ([], []).
Proof.
  apply (process_research_paper_without_sentences empty_document (fun _ => false)
           simple_sent_tokenize (Ok tt) simple_sent_tokenize count_row_sums
           echo_encode echo_generate echo_decode (py "blank.pdf") []).
  - reflexivity.
  - reflexivity.
  - reflexivity.
Defined.
